(** * Read-through cache and trending aggregation of bangumi-server-private

    A shallow embedding of [lib/types/fetcher.ts] and [lib/trending/subject.ts],
    followed by the scheduled trending job, the duration and random-string
    functions of [lib/utils] and the wiki routes of a subject.

    The TypeScript code talks to two process-wide singletons, [redis] and
    [db].  Here both live in an explicit [World] that every operation
    threads through, together with the log of the calls that were issued, so
    that "no Store query is issued" is a statement about that log. *)

From Stdlib Require Import ZArith Lia Ascii.
From stdpp Require Import base option list gmap strings pretty sorting.

Local Open Scope Z_scope.

(** ** Store rows

    The drizzle schema is imported, not defined, by the files at hand; each
    row carries the columns the queries of these files mention. *)

Record UserRow := { user_id : Z }.

Record SubjectRow := {
  subject_id : Z;
  subject_ban : Z;
  subject_nsfw : bool;
  subject_typeID : Z;
  subject_platform : Z;
  subject_series : bool;
  subject_collect : Z;
  subject_name : string;
}.

Record SubjectFieldsRow := {
  fields_id : Z;
  fields_year : Z;
  fields_month : Z;
  fields_rank : Z;
  fields_date : Z;
}.

Record SubjectInterestRow := {
  interest_subjectID : Z;
  interest_doingDateline : Z;
  interest_updatedAt : Z;
}.

Record TagIndexRow := {
  tagIndex_id : Z;
  tagIndex_cat : Z;
  tagIndex_type : Z;
  tagIndex_name : string;
}.

Record TagListRow := {
  tagList_tagID : Z;
  tagList_cat : Z;
  tagList_type : Z;
  tagList_mainID : Z;
}.

Record TopicRow := { topic_id : Z }.

Record EpisodeRow := { episode_id : Z; episode_ban : Z }.

Record Store := {
  chiiUsers : list UserRow;
  chiiSubjects : list SubjectRow;
  chiiSubjectFields : list SubjectFieldsRow;
  chiiSubjectInterests : list SubjectInterestRow;
  chiiTagIndex : list TagIndexRow;
  chiiTagList : list TagListRow;
  chiiSubjectTopics : list TopicRow;
  chiiEpisodes : list EpisodeRow;
  chiiGroupTopics : list TopicRow;
}.

(** ** Request-side types of [lib/subject/type.ts] and [lib/trending/type.ts]

    [SubjectType] is a numeric enum and [TrendingPeriod] a string enum: at
    run time they are a number and a string. *)

Abbreviation SubjectType := Z (only parsing).
Abbreviation TrendingPeriod := string (only parsing).

Inductive SubjectSort := Rank | Trends | Collects | Date | Title.

Record SubjectFilter := {
  filter_type : SubjectType;
  filter_nsfw : bool;
  filter_cat : option Z;
  filter_series : option bool;
  filter_year : option Z;
  filter_month : option Z;
  filter_tags : option (list string);
  filter_ids : option (list Z);
}.

Record TrendingItem := { item_id : Z; item_total : Z }.

Record IPaged := { paged_data : list Z; paged_total : Z }.

Global Instance SubjectSort_eq_dec : EqDecision SubjectSort.
Proof. solve_decision. Defined.
Global Instance TrendingItem_eq_dec : EqDecision TrendingItem.
Proof. solve_decision. Defined.

(** ** Collaborators

    What the two files import from modules that are not part of the code at
    hand: the cache-key builders of the [cache.ts] files, the response shapes
    of [res.ts] with the fields the fetchers read, the row converters of
    [convert.ts], and the constants and the duration table of the [type.ts]
    files.  Everything below is parametric in them. *)

Class Collaborators := {
  getUserSlimCacheKey : Z → string;
  getSubjectSlimCacheKey : Z → string;
  getSubjectItemCacheKey : Z → string;
  getSubjectListCacheKey : SubjectFilter → SubjectSort → Z → string;
  getSubjectTopicCacheKey : Z → string;
  getSubjectEpCacheKey : Z → string;
  getGroupTopicCacheKey : Z → string;
  getTrendingSubjectKey : SubjectType → TrendingPeriod → string;

  ISlimUser : Type;
  ISlimSubject : Type;
  ISubject : Type;
  ITopic : Type;
  IEpisode : Type;
  slimUser_id : ISlimUser → Z;
  slimSubject_nsfw : ISlimSubject → bool;
  subjectItem_nsfw : ISubject → bool;

  toSlimUser : UserRow → ISlimUser;
  toSlimSubject : SubjectRow → SubjectFieldsRow → ISlimSubject;
  toSubject : SubjectRow → SubjectFieldsRow → ISubject;
  toSubjectTopic : TopicRow → ITopic;
  toGroupTopic : TopicRow → ITopic;
  toEpisode : EpisodeRow → IEpisode;

  SubjectType_Book : SubjectType;
  SubjectType_Music : SubjectType;
  TagCat_Subject : Z;
  TrendingPeriod_Month : TrendingPeriod;
  (** [None] stands for [undefined]. *)
  getTrendingPeriodDuration : TrendingPeriod → option Z;
  (** [String.prototype.normalize('NFKC')]. *)
  normalizeNFKC : string → string;
}.

(** An [async] function either returns or stops at [IllTyped]: the cast
    [JSON.parse(cached) as T] is unchecked in TypeScript, and a payload of
    another shape than [T] is outside the typed behaviours of the code. *)
Inductive Outcome (A : Type) :=
| Return (a : A)
| IllTyped.
Arguments Return {A} a.
Arguments IllTyped {A}.

Section Fetcher.
Context `{C : Collaborators}.

(** ** The cache

    Redis holds JSON texts.  A text is represented by the value it denotes,
    tagged with the shape it was serialized from; [JSON.stringify] never
    yields the empty string, so every stored value is truthy.  [ttl] is the
    expiry the entry was written with, in seconds ([None]: no expiry). *)

Inductive Payload :=
| PSlimUser (u : ISlimUser)
| PSlimSubject (s : ISlimSubject)
| PSubject (s : ISubject)
| PTopic (t : ITopic)
| PEpisode (e : IEpisode)
| PPaged (p : IPaged)
| PTrending (l : list TrendingItem)
| PNumber (n : Z).

Record Entry := { payload : Payload; ttl : option Z }.

(** ** Calls issued to the collaborators *)

(** The predicates [fetchSubjectIDsByFilter] pushes onto [conditions], and
    the [orderBy] it ends up with. *)
Inductive Cond :=
| TypeIs (type : Z)
| NotBanned
| NotNsfw
| PlatformIs (cat : Z)
| SeriesIs (series : bool)
| YearIs (year : Z)
| MonthIs (month : Z)
| IdIn (ids : list Z)
| RankNonZero.

Inductive Order :=
| RankAsc
| CollectDesc
| DateDesc
| NameAsc
| FindInSet (ids : list Z).

Inductive Query :=
| CountSubjects (conditions : list Cond)
| SelectSubjectIDs (conditions : list Cond) (order : Order) (limit offset : Z)
| SelectUsersByIDs (ids : list Z)
| SelectSubjectByID (id : Z)
| SelectSubjectsByIDs (ids : list Z)
| SelectTagIndexes (type : Z) (names : list string)
| SelectTagList (type : Z) (tagIDs : list Z)
| SelectTopicsByIDs (ids : list Z)
| SelectEpisodeByID (id : Z)
| SelectEpisodesByIDs (ids : list Z)
| SelectGroupTopicsByIDs (ids : list Z)
| SelectTrending (subjectType : Z) (doingDateline : bool) (minDateline : Z).

Inductive LogLevel := Info | Error.

Inductive Event :=
| RedisGet (key : string)
| RedisMGet (keys : list string)
| RedisSet (key : string) (value : Payload) (ex : option Z)
| RedisDel (key : string)
| DbSelect (q : Query)
| Logged (level : LogLevel).

Record World := {
  store : Store;
  redis : gmap string Entry;
  clock : Z;
  trace : list Event;
}.

Definition emit (e : Event) (w : World) : World :=
  {| store := store w; redis := redis w; clock := clock w;
     trace := trace w ++ [e] |}.

Definition with_redis (f : gmap string Entry → gmap string Entry) (w : World) : World :=
  {| store := store w; redis := f (redis w); clock := clock w;
     trace := trace w |}.

(** ** The monad of an [async] function *)

Definition M (A : Type) : Type := World → Outcome A * World.

Global Instance M_ret : MRet M := λ A a w, (Return a, w).
Global Instance M_bind : MBind M := λ A B f m w,
  match m w with
  | (Return a, w') => f a w'
  | (IllTyped, w') => (IllTyped, w')
  end.

Definition ill_typed {A} : M A := λ w, (IllTyped, w).

(** [for (const x of xs) body], with the loop state [s] made explicit. *)
Fixpoint for_of {A S : Type} (xs : list A) (body : S → A → M S) (s : S) : M S :=
  match xs with
  | [] => mret s
  | x :: xs' => s' ← body s x; for_of xs' body s'
  end.

(** [Array.prototype.entries]. *)
Definition entries {A} (xs : list A) : list (nat * A) := imap (λ i x, (i, x)) xs.

(** [lodash.uniq]: the first occurrence of each value, in order. *)
Fixpoint uniq (l : list Z) : list Z :=
  match l with
  | [] => []
  | x :: l' => x :: filter (λ y, y ≠ x) (uniq l')
  end.

(** *** redis *)

Definition redis_get (key : string) : M (option Payload) := λ w,
  (Return (payload <$> redis w !! key), emit (RedisGet key) w).

Definition redis_mget (keys : list string) : M (list (option Payload)) := λ w,
  (Return ((λ k, payload <$> redis w !! k) <$> keys), emit (RedisMGet keys) w).

Definition redis_set (key : string) (value : Payload) (ex : option Z) : M unit := λ w,
  (Return tt,
   emit (RedisSet key value ex)
        (with_redis (insert key {| payload := value; ttl := ex |}) w)).

Definition redis_setex (key : string) (seconds : Z) (value : Payload) : M unit :=
  redis_set key value (Some seconds).

Definition redis_del (key : string) : M unit := λ w,
  (Return tt, emit (RedisDel key) (with_redis (delete key) w)).

Definition logger (level : LogLevel) : M unit := λ w,
  (Return tt, emit (Logged level) w).

Definition Date_now : M Z := λ w, (Return (clock w), w).

(** [cached[idx]]: out of range is [undefined]. *)
Definition at_index (cached : list (option Payload)) (idx : nat) : option Payload :=
  mjoin (cached !! idx).

(** *** [JSON.parse(cached) as T] *)

Definition as_ISlimUser (p : Payload) : M ISlimUser :=
  match p with PSlimUser u => mret u | _ => ill_typed end.
Definition as_ISlimSubject (p : Payload) : M ISlimSubject :=
  match p with PSlimSubject s => mret s | _ => ill_typed end.
Definition as_ISubject (p : Payload) : M ISubject :=
  match p with PSubject s => mret s | _ => ill_typed end.
Definition as_ITopic (p : Payload) : M ITopic :=
  match p with PTopic t => mret t | _ => ill_typed end.
Definition as_IEpisode (p : Payload) : M IEpisode :=
  match p with PEpisode e => mret e | _ => ill_typed end.
Definition as_IPaged (p : Payload) : M IPaged :=
  match p with PPaged r => mret r | _ => ill_typed end.
Definition as_TrendingItems (p : Payload) : M (list TrendingItem) :=
  match p with PTrending l => mret l | _ => ill_typed end.

Definition ONE_MONTH : Z := 2592000.

(** *** db

    Every [select] of the two files reads the tables and logs itself. *)

Definition db_select {R : Type} (q : Query) (rows : Store → list R) : M (list R) := λ w,
  (Return (rows (store w)), emit (DbSelect q) w).

(** [from(chiiSubjects).innerJoin(chiiSubjectFields, eq(subjects.id, fields.id))] *)
Definition subjects_join_fields (s : Store) : list (SubjectRow * SubjectFieldsRow) :=
  sub ← chiiSubjects s;
  f ← filter (λ f, fields_id f = subject_id sub) (chiiSubjectFields s);
  [(sub, f)].

(** ** [fetcher.ts]: users *)

Definition fetchSlimUsersByIDs (ids : list Z) : M (gmap Z ISlimUser) :=
  if (length ids =? 0)%nat then mret ∅ else
  let ids := uniq ids in
  cached ← redis_mget (getUserSlimCacheKey <$> ids);
  '(result, missing) ←
    for_of (entries ids) (λ '(result, missing) '(idx, id),
      match at_index cached idx with
      | Some text => u ← as_ISlimUser text; mret (<[id := u]> result, missing)
      | None => mret (result, missing ++ [id])
      end) (∅, []);
  data ← db_select (SelectUsersByIDs missing)
            (λ s, filter (λ d, user_id d ∈ missing) (chiiUsers s));
  for_of data (λ result d,
    let slim := toSlimUser d in
    redis_setex (getUserSlimCacheKey (slimUser_id slim)) ONE_MONTH (PSlimUser slim);;
    mret (<[slimUser_id slim := slim]> result)) result.

(** ** [fetcher.ts]: subjects *)

Definition fetchSlimSubjectByID (id : Z) (allowNsfw : bool) : M (option ISlimSubject) :=
  cached ← redis_get (getSubjectSlimCacheKey id);
  match cached with
  | Some text =>
      slim ← as_ISlimSubject text;
      if negb allowNsfw && slimSubject_nsfw slim then mret None else mret (Some slim)
  | None =>
      rows ← db_select (SelectSubjectByID id)
                (λ s, filter (λ d, subject_id d.1 = id ∧ subject_ban d.1 ≠ 1)
                             (subjects_join_fields s));
      match head rows with
      | None => mret None
      | Some data =>
          let slim := toSlimSubject data.1 data.2 in
          redis_setex (getSubjectSlimCacheKey id) ONE_MONTH (PSlimSubject slim);;
          if negb allowNsfw && slimSubject_nsfw slim then mret None else mret (Some slim)
      end
  end.

Definition fetchSlimSubjectsByIDs (ids : list Z) (allowNsfw : bool)
  : M (gmap Z ISlimSubject) :=
  if (length ids =? 0)%nat then mret ∅ else
  let ids := uniq ids in
  cached ← redis_mget (getSubjectSlimCacheKey <$> ids);
  '(result, missing) ←
    for_of (entries ids) (λ '(result, missing) '(idx, id),
      match at_index cached idx with
      | Some text =>
          slim ← as_ISlimSubject text;
          if negb allowNsfw && slimSubject_nsfw slim then mret (result, missing)
          else mret (<[id := slim]> result, missing)
      | None => mret (result, missing ++ [id])
      end) (∅, []);
  if (0 <? length missing)%nat then
    data ← db_select (SelectSubjectsByIDs missing)
              (λ s, filter (λ d, subject_id d.1 ∈ missing ∧ subject_ban d.1 ≠ 1)
                           (subjects_join_fields s));
    for_of data (λ result d,
      let slim := toSlimSubject d.1 d.2 in
      redis_setex (getSubjectSlimCacheKey (subject_id d.1)) ONE_MONTH (PSlimSubject slim);;
      if negb allowNsfw && slimSubject_nsfw slim then mret result
      else mret (<[subject_id d.1 := slim]> result)) result
  else mret result.

Definition fetchSubjectByID (id : Z) (allowNsfw : bool) : M (option ISubject) :=
  cached ← redis_get (getSubjectItemCacheKey id);
  match cached with
  | Some text =>
      item ← as_ISubject text;
      if negb allowNsfw && subjectItem_nsfw item then mret None else mret (Some item)
  | None =>
      rows ← db_select (SelectSubjectByID id)
                (λ s, filter (λ d, subject_id d.1 = id ∧ subject_ban d.1 ≠ 1)
                             (subjects_join_fields s));
      match head rows with
      | None => mret None
      | Some data =>
          let item := toSubject data.1 data.2 in
          redis_setex (getSubjectItemCacheKey id) ONE_MONTH (PSubject item);;
          if negb allowNsfw && subjectItem_nsfw item then mret None else mret (Some item)
      end
  end.

(** ** [fetcher.ts]: topics and episodes *)

Definition fetchSubjectTopicsByIDs (ids : list Z) : M (gmap Z ITopic) :=
  cached ← redis_mget (getSubjectTopicCacheKey <$> ids);
  '(result, missing) ←
    for_of (entries ids) (λ '(result, missing) '(idx, id),
      match at_index cached idx with
      | Some text => t ← as_ITopic text; mret (<[id := t]> result, missing)
      | None => mret (result, missing ++ [id])
      end) (∅, []);
  if (0 <? length missing)%nat then
    data ← db_select (SelectTopicsByIDs missing)
              (λ s, filter (λ d, topic_id d ∈ missing) (chiiSubjectTopics s));
    for_of data (λ result d,
      let topic := toSubjectTopic d in
      let result := <[topic_id d := topic]> result in
      redis_setex (getSubjectTopicCacheKey (topic_id d)) 86400 (PTopic topic);;
      mret result) result
  else mret result.

Definition fetchEpisodeByID (episodeID : Z) : M (option IEpisode) :=
  cached ← redis_get (getSubjectEpCacheKey episodeID);
  match cached with
  | Some text => item ← as_IEpisode text; mret (Some item)
  | None =>
      rows ← db_select (SelectEpisodeByID episodeID)
                (λ s, filter (λ d, episode_id d = episodeID ∧ episode_ban d ≠ 1)
                             (chiiEpisodes s));
      match head rows with
      | None => mret None
      | Some data =>
          let item := toEpisode data in
          redis_setex (getSubjectEpCacheKey episodeID) ONE_MONTH (PEpisode item);;
          mret (Some item)
      end
  end.

Definition fetchEpisodesByIDs (episodeIDs : list Z) : M (gmap Z IEpisode) :=
  cached ← redis_mget (getSubjectEpCacheKey <$> episodeIDs);
  '(result, missing) ←
    for_of (entries episodeIDs) (λ '(result, missing) '(idx, id),
      match at_index cached idx with
      | Some text => item ← as_IEpisode text; mret (<[id := item]> result, missing)
      | None => mret (result, missing ++ [id])
      end) (∅, []);
  if (0 <? length missing)%nat then
    data ← db_select (SelectEpisodesByIDs missing)
              (λ s, filter (λ d, episode_id d ∈ missing) (chiiEpisodes s));
    for_of data (λ result d,
      let item := toEpisode d in
      redis_setex (getSubjectEpCacheKey (episode_id d)) ONE_MONTH (PEpisode item);;
      mret (<[episode_id d := item]> result)) result
  else mret result.

Definition fetchGroupTopicsByIDs (ids : list Z) : M (gmap Z ITopic) :=
  cached ← redis_mget (getGroupTopicCacheKey <$> ids);
  '(result, missing) ←
    for_of (entries ids) (λ '(result, missing) '(idx, id),
      match at_index cached idx with
      | Some text => t ← as_ITopic text; mret (<[id := t]> result, missing)
      | None => mret (result, missing ++ [id])
      end) (∅, []);
  if (0 <? length missing)%nat then
    data ← db_select (SelectGroupTopicsByIDs missing)
              (λ s, filter (λ d, topic_id d ∈ missing) (chiiGroupTopics s));
    for_of data (λ result d,
      let topic := toGroupTopic d in
      let result := <[topic_id d := topic]> result in
      redis_setex (getGroupTopicCacheKey (topic_id d)) 86400 (PTopic topic);;
      mret result) result
  else mret result.

(** ** [fetcher.ts]: filtered, sorted and paged subject ids *)

Definition holds (c : Cond) (d : SubjectRow * SubjectFieldsRow) : bool :=
  match c with
  | TypeIs type => bool_decide (subject_typeID d.1 = type)
  | NotBanned => bool_decide (subject_ban d.1 ≠ 1)
  | NotNsfw => bool_decide (subject_nsfw d.1 = false)
  | PlatformIs cat => bool_decide (subject_platform d.1 = cat)
  | SeriesIs series => bool_decide (subject_series d.1 = series)
  | YearIs year => bool_decide (fields_year d.2 = year)
  | MonthIs month => bool_decide (fields_month d.2 = month)
  | IdIn ids => bool_decide (subject_id d.1 ∈ ids)
  | RankNonZero => bool_decide (fields_rank d.2 ≠ 0)
  end.

(** [where(and(...conditions))] over the joined tables. *)
Definition matching (conditions : list Cond) (s : Store)
  : list (SubjectRow * SubjectFieldsRow) :=
  filter (λ d, forallb (λ c, holds c d) conditions = true) (subjects_join_fields s).

(** MySQL's [find_in_set]: the 1-based position in the list, 0 when absent. *)
Definition find_in_set (id : Z) (ids : list Z) : Z :=
  match list_find (λ y, y = id) ids with
  | Some (i, _) => Z.of_nat i + 1
  | None => 0
  end.

Definition before (o : Order) (a b : SubjectRow * SubjectFieldsRow) : Prop :=
  match o with
  | RankAsc => fields_rank a.2 ≤ fields_rank b.2
  | CollectDesc => subject_collect b.1 ≤ subject_collect a.1
  | DateDesc => fields_date b.2 ≤ fields_date a.2
  | NameAsc => String.leb (subject_name a.1) (subject_name b.1) = true
  | FindInSet ids => find_in_set (subject_id a.1) ids ≤ find_in_set (subject_id b.1) ids
  end.

Global Instance before_dec o : RelDecision (before o).
Proof. intros a b. destruct o; simpl; apply _. Defined.

Definition db_count (conditions : list Cond) : M Z := λ w,
  (Return (Z.of_nat (length (matching conditions (store w)))),
   emit (DbSelect (CountSubjects conditions)) w).

(** [orderBy(order).limit(limit).offset(offset)]; the offset is never
    negative for a page number of 1 or more. *)
Definition db_page (conditions : list Cond) (order : Order) (limit offset : Z)
  : M (list Z) := λ w,
  (Return ((λ d, subject_id d.1) <$>
             take (Z.to_nat limit)
               (drop (Z.to_nat offset)
                  (merge_sort (before order) (matching conditions (store w))))),
   emit (DbSelect (SelectSubjectIDs conditions order limit offset)) w).

(** [Math.ceil(a / b)] on integers, [b] positive. *)
Definition Math_ceil_div (a b : Z) : Z := - ((- a) / b).

(** [filter.ids = ids]: the assignment writes into the caller's object. *)
Definition set_ids (fl : SubjectFilter) (ids : list Z) : SubjectFilter :=
  {| filter_type := filter_type fl; filter_nsfw := filter_nsfw fl;
     filter_cat := filter_cat fl; filter_series := filter_series fl;
     filter_year := filter_year fl; filter_month := filter_month fl;
     filter_tags := filter_tags fl; filter_ids := Some ids |}.

(** JavaScript truthiness of an optional number and of an optional boolean. *)
Definition truthy_number (n : option Z) : option Z :=
  match n with Some 0 => None | _ => n end.
Definition truthy_bool (b : option bool) : option bool :=
  match b with Some false => None | _ => b end.

Definition empty_page : IPaged := {| paged_data := []; paged_total := 0 |}.

(** Lines 328-349: the predicates that do not depend on the sort. *)
Definition filter_conditions (fl : SubjectFilter) : list Cond :=
  [TypeIs (filter_type fl); NotBanned]
  ++ (if filter_nsfw fl then [] else [NotNsfw])
  ++ (match truthy_number (filter_cat fl) with Some cat => [PlatformIs cat] | None => [] end)
  ++ (match truthy_bool (filter_series fl) with Some b => [SeriesIs b] | None => [] end)
  ++ (match truthy_number (filter_year fl) with Some y => [YearIs y] | None => [] end)
  ++ (match truthy_number (filter_month fl) with Some m => [MonthIs m] | None => [] end)
  ++ (match filter_ids fl with Some ids => [IdIn ids] | None => [] end).

(** Lines 351-373: the [switch] adds one predicate for [Rank]. *)
Definition conditions_of (fl : SubjectFilter) (sort : SubjectSort) : list Cond :=
  filter_conditions fl ++ (if decide (sort = Rank) then [RankNonZero] else []).

(** The two tag queries of lines 293-319. *)
Definition select_tagIndexes (s : Store) (type : Z) (names : list string)
  : list TagIndexRow :=
  filter (λ d, tagIndex_cat d = TagCat_Subject
               ∧ tagIndex_type d = type
               ∧ tagIndex_name d ∈ names) (chiiTagIndex s).

Definition select_tagList (s : Store) (type : Z) (tagIDs : list Z) : list Z :=
  remove_dups (tagList_mainID <$>
    filter (λ d, tagList_cat d = TagCat_Subject
                 ∧ tagList_type d = type
                 ∧ tagList_tagID d ∈ tagIDs) (chiiTagList s)).

(** Lines 292-326.  An array is truthy even when empty, so [filter.tags] is
    tested for presence, and the guard [if (!tagIndexes)] never fires. *)
Definition resolve_tags (fl : SubjectFilter) : M SubjectFilter :=
  match filter_tags fl with
  | Some tags =>
      let names := normalizeNFKC <$> tags in
      tagIndexes ← db_select (SelectTagIndexes (filter_type fl) names)
                      (λ s, select_tagIndexes s (filter_type fl) names);
      let tagIDs := tagIndex_id <$> tagIndexes in
      tagList ← db_select (SelectTagList (filter_type fl) tagIDs)
                   (λ s, select_tagList s (filter_type fl) tagIDs);
      let subjectIDs := tagList in
      match filter_ids fl with
      | Some ids => mret (set_ids fl (filter (λ id, id ∈ subjectIDs) ids))
      | None => mret (set_ids fl subjectIDs)
      end
  | None => mret fl
  end.

(** Lines 328-404, entered with the filter object as the two steps before
    have left it. *)
Definition query_page (cacheKey : string) (fl : SubjectFilter) (sort : SubjectSort)
    (page : Z) : M IPaged :=
  let conditions := conditions_of fl sort in
  count ← db_count conditions;
  if count =? 0 then mret empty_page else
  let total := Math_ceil_div count 24 in
  let order :=
    match sort with
    | Rank => Some RankAsc
    | Trends => FindInSet <$> filter_ids fl
    | Collects => Some CollectDesc
    | Date => Some DateDesc
    | Title => Some NameAsc
    end in
  match order with
  | None => mret empty_page
  | Some order =>
      data ← db_page conditions order 24 ((page - 1) * 24);
      let result := {| paged_data := data; paged_total := total |} in
      (if page =? 1 then redis_setex cacheKey 86400 (PPaged result)
       else redis_setex cacheKey 3600 (PPaged result));;
      mret result
  end.

(** Lines 283-291: [None] is the early return of an empty page when no
    trending list is cached. *)
Definition resolve_trending (fl : SubjectFilter) (sort : SubjectSort)
  : M (option SubjectFilter) :=
  if decide (sort = Trends) then
    let trendingKey := getTrendingSubjectKey (filter_type fl) TrendingPeriod_Month in
    data ← redis_get trendingKey;
    match data with
    | None => mret None
    | Some text =>
        ids ← as_TrendingItems text;
        mret (Some (set_ids fl (item_id <$> ids)))
    end
  else mret (Some fl).

(** The second component of the result is the caller's [filter] object as
    the call leaves it: the function assigns to [filter.ids]. *)
Definition fetchSubjectIDsByFilter (fl : SubjectFilter) (sort : SubjectSort) (page : Z)
  : M (IPaged * SubjectFilter) :=
  let cacheKey := getSubjectListCacheKey fl sort page in
  cached ← redis_get cacheKey;
  match cached with
  | Some text => r ← as_IPaged text; mret (r, fl)
  | None =>
      trended ← resolve_trending fl sort;
      match trended with
      | None => mret (empty_page, fl)
      | Some fl =>
          fl ← resolve_tags fl;
          r ← query_page cacheKey fl sort page;
          mret (r, fl)
      end
  end.

(** ** [lib/trending/subject.ts] *)

Definition getSubjectTrendingKey (type : SubjectType) (period : TrendingPeriod) : string :=
  "trending:subjects:" +:+ pretty type +:+ ":" +:+ period.

(** The rows of [chiiSubjectInterests] joined with their subject that pass
    the [where]; one subject id per joined row. *)
Definition trending_rows (s : Store) (subjectType : SubjectType) (doingDateline : bool)
    (minDateline : Z) : list Z :=
  i ← chiiSubjectInterests s;
  sub ← filter (λ sub, subject_id sub = interest_subjectID i) (chiiSubjects s);
  if decide (subject_typeID sub = subjectType
             ∧ subject_ban sub ≠ 1
             ∧ subject_nsfw sub = false
             ∧ minDateline < (if doingDateline then interest_doingDateline i
                              else interest_updatedAt i))
  then [subject_id sub] else [].

(** [groupBy(id)] with [count(id)]. *)
Definition group_count (ids : list Z) : list (Z * Z) :=
  (λ id, (id, Z.of_nat (length (filter (λ y, y = id) ids)))) <$> remove_dups ids.

Definition count_desc (a b : Z * Z) : Prop := b.2 ≤ a.2.

Global Instance count_desc_dec : RelDecision count_desc.
Proof. intros a b. unfold count_desc. apply _. Defined.

(** [orderBy(desc(count)).limit(1000)].  SQL leaves the order of equal
    counts open; the sort used here is one admissible choice. *)
Definition trending_query (s : Store) (subjectType : SubjectType) (doingDateline : bool)
    (minDateline : Z) : list (Z * Z) :=
  take 1000 (merge_sort count_desc
               (group_count (trending_rows s subjectType doingDateline minDateline))).

(** [`lock:${trendingKey}`] *)
Definition lockKey_of (trendingKey : string) : string := "lock:" +:+ trendingKey.

(** Lines 37-40. *)
Definition doingDateline_of (subjectType : SubjectType) : bool :=
  if decide (subjectType = SubjectType_Book ∨ subjectType = SubjectType_Music)
  then false else true.

(** Lines 64-67: one [TrendingItem] per row of the aggregate. *)
Definition to_item (item : Z * Z) : TrendingItem :=
  {| item_id := item.1; item_total := item.2 |}.

(** A stored lock is a non-empty text and so truthy; [!duration] holds for
    [undefined] and for 0.  The defaults of [period] and [flush] are
    [TrendingPeriod.Month] and [false]. *)
Definition updateTrendingSubjects (subjectType : SubjectType) (period : TrendingPeriod)
    (flush : bool) : M unit :=
  let trendingKey := getSubjectTrendingKey subjectType period in
  let lockKey := lockKey_of trendingKey in
  (if flush then redis_del lockKey else mret tt);;
  lock ← redis_get lockKey;
  match lock with
  | Some _ => logger Info
  | None =>
      redis_set lockKey (PNumber 1) (Some 3600);;
      logger Info;;
      now ← Date_now;
      match truthy_number (getTrendingPeriodDuration period) with
      | None => logger Error
      | Some duration =>
          let minDateline := now - duration in
          let doingDateline := doingDateline_of subjectType in
          data ← db_select (SelectTrending subjectType doingDateline minDateline)
                    (λ s, trending_query s subjectType doingDateline minDateline);
          let ids := to_item <$> data in
          redis_set trendingKey (PTrending ids) None;;
          redis_del lockKey
      end
  end.

(** [Array.prototype.slice(start, end)], negative indices counting from the
    end of the array. *)
Definition slice {A : Type} (l : list A) (start end_ : Z) : list A :=
  let len := Z.of_nat (length l) in
  let k := if start <? 0 then Z.max (len + start) 0 else Z.min start len in
  let final := if end_ <? 0 then Z.max (len + end_) 0 else Z.min end_ len in
  take (Z.to_nat (final - k)) (drop (Z.to_nat k) l).

Definition getTrendingSubjects (subjectType : SubjectType) (period : TrendingPeriod)
    (limit offset : Z) : M (list TrendingItem) :=
  let trendingKey := getSubjectTrendingKey subjectType period in
  data ← redis_get trendingKey;
  match data with
  | None => mret []
  | Some text =>
      ids ← as_TrendingItems text;
      mret (slice ids offset (offset + limit))
  end.

(** ** Vocabulary of the statements *)

Definition cached_as (w : World) (key : string) (p : Payload) : Prop :=
  payload <$> redis w !! key = Some p.

(** The list a successful [updateTrendingSubjects] computes in world [w]. *)
Definition trending_items (w : World) (subjectType : SubjectType) (duration : Z)
  : list TrendingItem :=
  to_item <$> trending_query (store w) subjectType (doingDateline_of subjectType)
                (clock w - duration).

(** The subject ids the two tag queries resolve [tags] to. *)
Definition tagged_subjects (s : Store) (type : Z) (tags : list string) : list Z :=
  select_tagList s type
    (tagIndex_id <$> select_tagIndexes s type (normalizeNFKC <$> tags)).

(** What [filter.ids] holds once [fetchSubjectIDsByFilter] is past its cache
    lookup, [trending] being the cached trending list. *)
Definition ids_after (s : Store) (fl : SubjectFilter) (sort : SubjectSort)
    (trending : list TrendingItem) : option (list Z) :=
  let ids := if decide (sort = Trends) then Some (item_id <$> trending)
             else filter_ids fl in
  match filter_tags fl with
  | Some tags =>
      let subjectIDs := tagged_subjects s (filter_type fl) tags in
      Some (match ids with
            | Some ids => filter (λ id, id ∈ subjectIDs) ids
            | None => subjectIDs
            end)
  | None => ids
  end.

Definition filter_after (s : Store) (fl : SubjectFilter) (sort : SubjectSort)
    (trending : list TrendingItem) : SubjectFilter :=
  match ids_after s fl sort trending with
  | Some ids => set_ids fl ids
  | None => fl
  end.

(** The page the paginated query selects. *)
Definition page_of (s : Store) (conditions : list Cond) (order : Order) (page : Z)
  : list Z :=
  (λ d, subject_id d.1) <$>
    take 24 (drop (Z.to_nat ((page - 1) * 24))
               (merge_sort (before order) (matching conditions s))).

(** The joined rows the Store holds for subject [id]. *)
Definition subject_rows (s : Store) (id : Z) : list (SubjectRow * SubjectFieldsRow) :=
  filter (λ d, subject_id d.1 = id) (subjects_join_fields s).

Definition is_cache_write (e : Event) : Prop :=
  match e with RedisSet _ _ _ => True | _ => False end.

Definition the_lock : Entry := {| payload := PNumber 1; ttl := Some 3600 |}.

Definition total_desc (a b : TrendingItem) : Prop := item_total b ≤ item_total a.

(** The write-back of one Store row by a batch lookup, and the choice of
    putting its conversion into the result. *)
Definition write_back {R} (key : R → string) (value : R → Payload) (seconds : Z)
    (d : R) (w : World) : World :=
  emit (RedisSet (key d) (value d) (Some seconds))
    (with_redis (insert (key d) {| payload := value d; ttl := Some seconds |}) w).

Definition keep {R T} (id : R → Z) (hidden : R → bool) (conv : R → T)
    (result : gmap Z T) (d : R) : gmap Z T :=
  if hidden d then result else <[id d := conv d]> result.

End Fetcher.

(** ** A concrete set of collaborators

    Used to run the definitions on concrete stores and caches: converted
    records are the rows themselves and keys are prefixed ids. *)

Definition sample : Collaborators := {|
  getUserSlimCacheKey id := "user:slim:" +:+ pretty id;
  getSubjectSlimCacheKey id := "subject:slim:" +:+ pretty id;
  getSubjectItemCacheKey id := "subject:item:" +:+ pretty id;
  getSubjectListCacheKey fl sort page :=
    "subject:list:" +:+ pretty (filter_type fl) +:+ ":" +:+
    (match sort with
     | Rank => "rank" | Trends => "trends" | Collects => "collects"
     | Date => "date" | Title => "title"
     end) +:+ ":" +:+ pretty page;
  getSubjectTopicCacheKey id := "subject:topic:" +:+ pretty id;
  getSubjectEpCacheKey id := "subject:ep:" +:+ pretty id;
  getGroupTopicCacheKey id := "group:topic:" +:+ pretty id;
  getTrendingSubjectKey type period :=
    "trending:subjects:" +:+ pretty type +:+ ":" +:+ period;
  ISlimUser := UserRow;
  ISlimSubject := SubjectRow;
  ISubject := SubjectRow * SubjectFieldsRow;
  ITopic := TopicRow;
  IEpisode := EpisodeRow;
  slimUser_id := user_id;
  slimSubject_nsfw := subject_nsfw;
  subjectItem_nsfw d := subject_nsfw d.1;
  toSlimUser d := d;
  toSlimSubject s _ := s;
  toSubject s f := (s, f);
  toSubjectTopic d := d;
  toGroupTopic d := d;
  toEpisode d := d;
  SubjectType_Book := 1;
  SubjectType_Music := 3;
  TagCat_Subject := 0;
  TrendingPeriod_Month := "month";
  getTrendingPeriodDuration period :=
    if decide (period = "week") then Some 604800
    else if decide (period = "month") then Some 2592000
    else None;
  normalizeNFKC s := s;
|}.

Definition empty_store : Store := {|
  chiiUsers := []; chiiSubjects := []; chiiSubjectFields := [];
  chiiSubjectInterests := []; chiiTagIndex := []; chiiTagList := [];
  chiiSubjectTopics := []; chiiEpisodes := []; chiiGroupTopics := [];
|}.

Definition sample_subject (id : Z) (ban : Z) (nsfw : bool) : SubjectRow := {|
  subject_id := id; subject_ban := ban; subject_nsfw := nsfw; subject_typeID := 2;
  subject_platform := 1; subject_series := false; subject_collect := id;
  subject_name := "";
|}.

Definition sample_fields (id : Z) : SubjectFieldsRow := {|
  fields_id := id; fields_year := 2024; fields_month := 1; fields_rank := 0;
  fields_date := 0;
|}.

Definition interest (id : Z) : SubjectInterestRow := {|
  interest_subjectID := id; interest_doingDateline := 100; interest_updatedAt := 100;
|}.

(** Subjects 10, 20 and 30 with 5, 9 and 1 interest rows. *)
Definition trending_store : Store := {|
  chiiUsers := [];
  chiiSubjects := [sample_subject 10 0 false; sample_subject 20 0 false;
                   sample_subject 30 0 false];
  chiiSubjectFields := [sample_fields 10; sample_fields 20; sample_fields 30];
  chiiSubjectInterests :=
    replicate 5 (interest 10) ++ replicate 9 (interest 20) ++ [interest 30];
  chiiTagIndex := []; chiiTagList := [];
  chiiSubjectTopics := []; chiiEpisodes := []; chiiGroupTopics := [];
|}.

Section Samples.
Local Existing Instance sample.

Definition world_of (s : Store) (r : gmap string Entry) : World :=
  {| store := s; redis := r; clock := 50000; trace := [] |}.

Definition entry_of (p : Payload) : Entry := {| payload := p; ttl := Some ONE_MONTH |}.

(** Subject 5, NSFW, cached in its slim and in its full shape. *)
Definition nsfw_world : World :=
  world_of empty_store
    (<[getSubjectSlimCacheKey 5 := entry_of (PSlimSubject (sample_subject 5 0 true))]>
       (<[getSubjectItemCacheKey 5 :=
            entry_of (PSubject (sample_subject 5 0 true, sample_fields 5))]> ∅)).

(** The trending job of anime over a month holds its lock. *)
Definition locked_world : World :=
  world_of trending_store {[ lockKey_of (getSubjectTrendingKey 2 "month") := the_lock ]}.

(** Subjects 1 and 3 present, subject 2 banned. *)
Definition batch_store : Store := {|
  chiiUsers := [];
  chiiSubjects := [sample_subject 1 0 false; sample_subject 2 1 false;
                   sample_subject 3 0 false];
  chiiSubjectFields := [sample_fields 1; sample_fields 2; sample_fields 3];
  chiiSubjectInterests := []; chiiTagIndex := []; chiiTagList := [];
  chiiSubjectTopics := []; chiiEpisodes := []; chiiGroupTopics := [];
|}.

(** Episode 7, banned. *)
Definition episode_store : Store := {|
  chiiUsers := []; chiiSubjects := []; chiiSubjectFields := [];
  chiiSubjectInterests := []; chiiTagIndex := []; chiiTagList := [];
  chiiSubjectTopics := [];
  chiiEpisodes := [{| episode_id := 7; episode_ban := 1 |}];
  chiiGroupTopics := [];
|}.

(** Twenty-five anime, ids 1 to 25, each collected as often as its id. *)
Definition store25 : Store := {|
  chiiUsers := [];
  chiiSubjects := (λ i, sample_subject (Z.of_nat i) 0 false) <$> seq 1 25;
  chiiSubjectFields := (λ i, sample_fields (Z.of_nat i)) <$> seq 1 25;
  chiiSubjectInterests := []; chiiTagIndex := []; chiiTagList := [];
  chiiSubjectTopics := []; chiiEpisodes := []; chiiGroupTopics := [];
|}.

(** Subject 5, NSFW, in the Store only. *)
Definition nsfw_store : Store := {|
  chiiUsers := [];
  chiiSubjects := [sample_subject 5 0 true];
  chiiSubjectFields := [sample_fields 5];
  chiiSubjectInterests := []; chiiTagIndex := []; chiiTagList := [];
  chiiSubjectTopics := []; chiiEpisodes := []; chiiGroupTopics := [];
|}.

(** Subject topics 8 and 9. *)
Definition topic_store : Store := {|
  chiiUsers := []; chiiSubjects := []; chiiSubjectFields := [];
  chiiSubjectInterests := []; chiiTagIndex := []; chiiTagList := [];
  chiiSubjectTopics := [{| topic_id := 8 |}; {| topic_id := 9 |}];
  chiiEpisodes := []; chiiGroupTopics := [];
|}.

(** All anime, no further constraint. *)
Definition anime : SubjectFilter := {|
  filter_type := 2; filter_nsfw := false; filter_cat := None; filter_series := None;
  filter_year := None; filter_month := None; filter_tags := None; filter_ids := None;
|}.

(** The trending list of anime ranks subject 3 before subject 1. *)
Definition trended_world : World :=
  world_of batch_store
    {[ getTrendingSubjectKey 2 TrendingPeriod_Month :=
         {| payload := PTrending [ {| item_id := 3; item_total := 4 |};
                                   {| item_id := 1; item_total := 2 |} ];
            ttl := None |} ]}.

End Samples.

(** ** The scheduled job and further vocabulary *)

Section Jobs.
Context `{C : Collaborators}.

(** [trendingSubjects] of the job file; [SubjectTypeValues] is a constant of
    [lib/subject/type.ts] and is taken as an argument. *)
Definition trendingSubjects (SubjectTypeValues : list SubjectType) : M unit :=
  logger Info;;
  for_of SubjectTypeValues (λ _ subjectType,
    logger Info;;
    updateTrendingSubjects subjectType TrendingPeriod_Month false) tt.

(** The two tag queries, as logged, when the filter has tags. *)
Definition tag_queries (s : Store) (fl : SubjectFilter) : list Event :=
  match filter_tags fl with
  | Some tags =>
      let names := normalizeNFKC <$> tags in
      [DbSelect (SelectTagIndexes (filter_type fl) names);
       DbSelect (SelectTagList (filter_type fl)
                   (tagIndex_id <$> select_tagIndexes s (filter_type fl) names))]
  | None => []
  end.

(** What [fetchSubjectIDsByFilter] has issued on a miss by the time it
    counts: the read of the list cache, of the trending list for the
    trending sort, and the tag queries. *)
Definition page_lookups (s : Store) (fl : SubjectFilter) (sort : SubjectSort) (page : Z)
  : list Event :=
  RedisGet (getSubjectListCacheKey fl sort page)
  :: (if decide (sort = Trends)
      then [RedisGet (getTrendingSubjectKey (filter_type fl) TrendingPeriod_Month)]
      else [])
  ++ tag_queries s fl.

(** Position order in a list of ids, as [find_in_set] yields it. *)
Definition rank_order (ids : list Z) (a b : Z) : Prop :=
  find_in_set a ids ≤ find_in_set b ids.

(** The ids a batch lookup of slim subjects does not find in the cache. *)
Definition missing_ids (w : World) (ids : list Z) : list Z :=
  filter (λ id, redis w !! getSubjectSlimCacheKey id = None) (uniq ids).

(** One turn of the first loop of [fetchSlimSubjectsByIDs] on the id [id],
    [cached] being what the cache holds for it. *)
Definition sort_hit (allowNsfw : bool) (cached : option Payload)
    (acc : gmap Z ISlimSubject * list Z) (id : Z) : gmap Z ISlimSubject * list Z :=
  match cached with
  | Some (PSlimSubject slim) =>
      if negb allowNsfw && slimSubject_nsfw slim then acc
      else (<[id := slim]> acc.1, acc.2)
  | Some _ => acc
  | None => (acc.1, acc.2 ++ [id])
  end.

(** The Store queries of a trace. *)
Definition queries (t : list Event) : list Query :=
  omap (λ e, match e with DbSelect q => Some q | _ => None end) t.

End Jobs.

(** ** [lib/utils]: durations and random strings

    Durations are whole numbers of seconds; [Number] of the language and the
    parser of the [parse-duration] package are taken as arguments. *)

(** A number as the duration functions tell numbers apart: an integer, some
    other number, or [NaN]. *)
Inductive JSNumber :=
| Integer (z : Z)
| NonInteger
| NaN.

#[global] Instance JSNumber_eq_dec : EqDecision JSNumber.
Proof. solve_decision. Defined.

Inductive StringOrNumber :=
| JString (s : string)
| JNumber (n : JSNumber).

Inductive Thrown := PlainError | BadRequest.

Inductive Result (A : Type) :=
| Value (a : A)
| Throws (e : Thrown).
Arguments Value {A} a.
Arguments Throws {A} e.

(** [String.prototype.split] and [includes] for a one-character separator. *)
Fixpoint split (sep : ascii) (s : string) : list string :=
  match s with
  | EmptyString => [EmptyString]
  | String c r =>
      if decide (c = sep) then EmptyString :: split sep r
      else match split sep r with
           | h :: t => String c h :: t
           | [] => [String c EmptyString]
           end
  end.

Fixpoint includes (sep : ascii) (s : string) : bool :=
  match s with
  | EmptyString => false
  | String c r => if decide (c = sep) then true else includes sep r
  end.

(** [String.prototype.padStart] with a one-character filler. *)
Fixpoint repeat_char (c : ascii) (n : nat) : string :=
  match n with
  | O => EmptyString
  | S n' => String c (repeat_char c n')
  end.

Definition padStart (targetLength : nat) (c : ascii) (s : string) : string :=
  repeat_char c (targetLength - String.length s) +:+ s.

Section Durations.
Variable Number_ : string → JSNumber.
Variable parse_duration_package : string → option JSNumber.

Definition parseIntStrict (integer : StringOrNumber) : option Z :=
  match integer with
  | JNumber n => match n with Integer z => Some z | _ => None end
  | JString s => match Number_ s with Integer z => Some z | _ => None end
  end.

Definition intval (value : StringOrNumber) : Result Z :=
  match parseIntStrict value with
  | Some v => Value v
  | None => Throws PlainError
  end.

(** The loop of [parseDuration] over the components. *)
Fixpoint sum_components (split : list string) (result : Z) : Result Z :=
  match split with
  | [] => Value result
  | component :: rest =>
      match intval (JString component) with
      | Value v => sum_components rest (result * 60 + v)
      | Throws e => Throws e
      end
  end.

Definition parseDuration (durationString : string) : Result JSNumber :=
  if includes ":" durationString then
    let split := split ":" durationString in
    if (3 <? length split)%nat then Value NaN
    else match sum_components split 0 with
         | Value result => Value (Integer result)
         | Throws e => Throws e
         end
  else Value (default NaN (parse_duration_package durationString)).

(** An absent and an empty string are both falsy. *)
Definition validateDuration (duration : option string) : Result unit :=
  match duration with
  | None => Value tt
  | Some EmptyString => Value tt
  | Some duration =>
      match parseDuration duration with
      | Value NaN => Throws BadRequest
      | Value _ => Value tt
      | Throws e => Throws e
      end
  end.

End Durations.

Definition pad (s : Z) (n : nat) : string := padStart n "0" (pretty s).

(** [%] is the remainder that takes the sign of the dividend and
    [Math.floor] of a quotient by a positive number is [Z.div]. *)
Definition formatLongDuration (durationSeconds : Z) : string :=
  let years := durationSeconds / 31536000 in
  let s := if decide (years = 0) then [] else [pretty years +:+ "y"] in
  let durationSeconds := Z.rem durationSeconds 31536000 in
  let days := durationSeconds / 86400 in
  let s := if decide (days = 0) then s else s ++ [pretty days +:+ "d"] in
  let durationSeconds := Z.rem durationSeconds 86400 in
  let hours := durationSeconds / 3600 in
  let s := if decide (hours = 0) then s else s ++ [pretty hours +:+ "h"] in
  let durationSeconds := Z.rem durationSeconds 3600 in
  let minutes := durationSeconds / 60 in
  let s := if decide (minutes = 0) then s else s ++ [pretty minutes +:+ "m"] in
  let seconds := Z.rem durationSeconds 60 in
  let s := if decide (seconds = 0) then s else s ++ [pretty seconds +:+ "s"] in
  String.concat "" s.

Definition formatDuration (durationSeconds : Z) : string :=
  if decide (3600 * 24 ≤ durationSeconds) then formatLongDuration durationSeconds else
  let durationSeconds := Z.rem durationSeconds 86400 in
  let hours := durationSeconds / 3600 in
  let s := if decide (hours = 0) then [] else [pretty hours] in
  let durationSeconds := Z.rem durationSeconds 3600 in
  let minutes := durationSeconds / 60 in
  let s := if decide (minutes = 0) then s ++ ["00"] else s ++ [pad minutes 2] in
  let s := s ++ [pad (Z.rem durationSeconds 60) 2] in
  String.concat ":" s.

(** 32-bit integer arithmetic of [customAlphabet]: [ToInt32], [Math.clz32]
    and [<<]. *)
Definition int32 (z : Z) : Z := (z + 2 ^ 31) `mod` 2 ^ 32 - 2 ^ 31.

Definition clz32 (z : Z) : Z :=
  let u := z `mod` 2 ^ 32 in
  if decide (u = 0) then 32 else 31 - Z.log2 u.

Definition shl32 (a count : Z) : Z := int32 (int32 a * 2 ^ (count `mod` 32)).

(** Line 17, as a function of [alphabet.length]. *)
Definition customAlphabet_mask (alphabet_length : Z) : Z :=
  shl32 2 (31 - clz32 (Z.lor (int32 (alphabet_length - 1)) 1)) - 1.

(** Lines 23-33.  One call of [tick] draws one buffer of random bytes and
    reads it from its last byte to its first; [Again] is the recursive call
    of [tick] on the prefix reached. *)
Inductive Tick :=
| Done (s : string)
| Again (prefix : string).

(** [alphabet[index] || '']. *)
Definition alphabet_at (alphabet : string) (index : Z) : string :=
  if decide (index < 0) then EmptyString else
  match String.get (Z.to_nat index) alphabet with
  | Some c => String c EmptyString
  | None => EmptyString
  end.

Fixpoint tick_bytes (alphabet : string) (mask : Z) (bytes : list Z) (prefix : string)
    (size : Z) : Tick :=
  match bytes with
  | [] => Again prefix
  | b :: bytes' =>
      let prefix := prefix +:+ alphabet_at alphabet (Z.land b mask) in
      if decide (Z.of_nat (String.length prefix) = size) then Done prefix
      else tick_bytes alphabet mask bytes' prefix size
  end.

(** [tick] over the buffers that [randomBytes] yields one after the other. *)
Fixpoint tick (alphabet : string) (mask : Z) (buffers : list (list Z)) (prefix : string)
    (size : Z) : Tick :=
  match buffers with
  | [] => Again prefix
  | buffer :: rest =>
      match tick_bytes alphabet mask (reverse buffer) prefix size with
      | Done s => Done s
      | Again prefix => tick alphabet mask rest prefix size
      end
  end.

(** The bytes of the buffers in the order [tick] reads them, the bytes that
    select a character of the alphabet, and the characters that a run of
    bytes appends. *)
Definition read_order (buffers : list (list Z)) : list Z :=
  mjoin (reverse <$> buffers).

Definition selects (alphabet : string) (mask : Z) (b : Z) : Prop :=
  0 ≤ Z.land b mask < Z.of_nat (String.length alphabet).

#[global] Instance selects_dec alphabet mask b : Decision (selects alphabet mask b).
Proof. unfold selects. apply _. Defined.

Definition selected (alphabet : string) (mask : Z) (bytes : list Z) : string :=
  foldr (λ b s, alphabet_at alphabet (Z.land b mask) +:+ s) EmptyString bytes.

(** ** [routes/wiki/subject.ts]: the wiki routes of a subject

    The three handlers as they run once the schema has accepted the request
    and the [requireLogin] hook has passed.  [orm.fetchSubject], [platforms]
    and [Subject.edit] belong to other modules and are taken as arguments;
    [Subject.edit] is given by the way its call ends. *)

Record WikiSubject := {
  wiki_id : Z;
  wiki_name : string;
  wiki_typeID : Z;
  wiki_infobox : string;
  wiki_platform : Z;
  wiki_summary : string;
  wiki_nsfw : bool;
  wiki_locked : bool;
}.

Record WikiPlatform := { platform_id : Z; platform_type_cn : string }.

Record SubjectWikiInfo := {
  info_id : Z;
  info_name : string;
  info_typeID : Z;
  info_infobox : string;
  info_platform : Z;
  info_availablePlatform : list (Z * string);
  info_summary : string;
  info_nsfw : bool;
}.

Record SubjectEdit := {
  edit_name : string;
  edit_infobox : string;
  edit_platform : Z;
  edit_date : option string;
  edit_summary : string;
}.

(** [t.Partial(SubjectEdit)]: every key may be absent, and the object may
    carry keys the schema does not name. *)
Record PartialSubjectEdit := {
  partial_name : option string;
  partial_infobox : option string;
  partial_platform : option Z;
  partial_date : option string;
  partial_summary : option string;
  partial_other_keys : nat;
}.

Record Auth := { permission_subject_edit : bool; auth_userID : Z }.

Record EditArgs := {
  args_subjectID : Z;
  args_name : string;
  args_infobox : string;
  args_platform : Z;
  args_date : option string;
  args_summary : string;
  args_userID : Z;
  args_commitMessage : string;
}.

Inductive RouteError :=
| NotFoundError (subjectID : Z)
| BadRequestError (subjectID : Z)
| NotAllowedError (what : string)
| OtherError (name : string).

Inductive Reply (A : Type) :=
| Replied (a : A)
| Raised (e : RouteError).
Arguments Replied {A} a.
Arguments Raised {A} e.

(** The calls a handler makes to the other modules, in order. *)
Inductive Call :=
| FetchSubject (subjectID : Z)
| EditSubject (args : EditArgs).

(** [Object.keys(input).length]. *)
Definition keys_length (input : PartialSubjectEdit) : nat :=
  (length (option_list (partial_name input))
   + length (option_list (partial_infobox input))
   + length (option_list (partial_platform input))
   + length (option_list (partial_date input))
   + length (option_list (partial_summary input))
   + partial_other_keys input)%nat.

Section WikiRoutes.
Variable fetchSubject : Z → option WikiSubject.
Variable platforms : Z → list WikiPlatform.
Variable Subject_edit : EditArgs → Reply unit.

Definition subjectInfo (subjectID : Z) : list Call * Reply SubjectWikiInfo :=
  match fetchSubject subjectID with
  | None => ([FetchSubject subjectID], Raised (NotFoundError subjectID))
  | Some s =>
      if wiki_locked s then
        ([FetchSubject subjectID], Raised (NotAllowedError "edit a locked subject"))
      else
        ([FetchSubject subjectID],
         Replied {| info_id := wiki_id s;
                    info_name := wiki_name s;
                    info_infobox := wiki_infobox s;
                    info_summary := wiki_summary s;
                    info_platform := wiki_platform s;
                    info_availablePlatform :=
                      (λ x, (platform_id x, platform_type_cn x))
                        <$> platforms (wiki_typeID s);
                    info_nsfw := wiki_nsfw s;
                    info_typeID := wiki_typeID s |})
  end.

Definition putSubjectInfo (auth : Auth) (commitMessage : string) (input : SubjectEdit)
    (subjectID : Z) : list Call * Reply unit :=
  if negb (permission_subject_edit auth) then ([], Raised (NotAllowedError "edit subject"))
  else
    match fetchSubject subjectID with
    | None => ([FetchSubject subjectID], Raised (NotFoundError subjectID))
    | Some s =>
        if wiki_locked s then
          ([FetchSubject subjectID], Raised (NotAllowedError "edit a locked subject"))
        else
          let body := input in
          let args := {| args_subjectID := subjectID;
                         args_name := edit_name body;
                         args_infobox := edit_infobox body;
                         args_platform := edit_platform body;
                         args_date := edit_date body;
                         args_summary := edit_summary body;
                         args_userID := auth_userID auth;
                         args_commitMessage := commitMessage |} in
          ([FetchSubject subjectID; EditSubject args], Subject_edit args)
    end.

Definition patchSubjectInfo (auth : Auth) (commitMessage : string)
    (input : PartialSubjectEdit) (subjectID : Z) : list Call * Reply unit :=
  if negb (permission_subject_edit auth) then ([], Raised (NotAllowedError "edit subject"))
  else if decide (keys_length input = 0%nat) then ([], Replied tt)
  else
    match fetchSubject subjectID with
    | None => ([FetchSubject subjectID], Raised (BadRequestError subjectID))
    | Some s =>
        if wiki_locked s then
          ([FetchSubject subjectID], Raised (NotAllowedError "edit a locked subject"))
        else
          let infobox := default (wiki_infobox s) (partial_infobox input) in
          let name := default (wiki_name s) (partial_name input) in
          let platform := default (wiki_platform s) (partial_platform input) in
          let summary := default (wiki_summary s) (partial_summary input) in
          let date := partial_date input in
          if bool_decide (infobox = wiki_infobox s)
             && bool_decide (name = wiki_name s)
             && bool_decide (platform = wiki_platform s)
             && bool_decide (summary = wiki_summary s)
             && bool_decide (date = None)
          then ([FetchSubject subjectID], Replied tt)
          else
            let args := {| args_subjectID := subjectID;
                           args_name := name;
                           args_infobox := infobox;
                           args_commitMessage := commitMessage;
                           args_platform := platform;
                           args_summary := summary;
                           args_date := date;
                           args_userID := auth_userID auth |} in
            ([FetchSubject subjectID; EditSubject args], Subject_edit args)
    end.

End WikiRoutes.

(** The body a partial edit stands for on the stored subject [s], and
    whether it differs from what is stored. *)
Definition merged (s : WikiSubject) (p : PartialSubjectEdit) : SubjectEdit := {|
  edit_name := default (wiki_name s) (partial_name p);
  edit_infobox := default (wiki_infobox s) (partial_infobox p);
  edit_platform := default (wiki_platform s) (partial_platform p);
  edit_date := partial_date p;
  edit_summary := default (wiki_summary s) (partial_summary p);
|}.

Definition changes (s : WikiSubject) (p : PartialSubjectEdit) : Prop :=
  edit_name (merged s p) ≠ wiki_name s
  ∨ edit_infobox (merged s p) ≠ wiki_infobox s
  ∨ edit_platform (merged s p) ≠ wiki_platform s
  ∨ edit_summary (merged s p) ≠ wiki_summary s
  ∨ edit_date (merged s p) ≠ None.

Definition edits (calls : list Call) : list EditArgs :=
  omap (λ c, match c with EditSubject args => Some args | _ => None end) calls.

(** A subject of the wiki, unlocked, and a partial edit of its infobox. *)
Definition sample_wiki : WikiSubject := {|
  wiki_id := 354667; wiki_name := "sample"; wiki_typeID := 2;
  wiki_infobox := "{{Infobox}}"; wiki_platform := 0; wiki_summary := "";
  wiki_nsfw := false; wiki_locked := false;
|}.

Definition sample_wiki_only (subjectID : Z) : option WikiSubject :=
  if decide (subjectID = 354667) then Some sample_wiki else None.

Definition wiki_editor : Auth := {| permission_subject_edit := true; auth_userID := 1 |}.

Definition infobox_only (infobox : string) : PartialSubjectEdit := {|
  partial_name := None; partial_infobox := Some infobox; partial_platform := None;
  partial_date := None; partial_summary := None; partial_other_keys := 0;
|}.

(** A [Number] for strings of decimal digits, the empty string being 0 and
    any other string [NaN]; used to run the duration functions. *)
Fixpoint digits_value (s : string) (acc : Z) : JSNumber :=
  match s with
  | EmptyString => Integer acc
  | String c r =>
      match Ascii.is_nat c with
      | Some d => digits_value r (acc * 10 + Z.of_nat d)
      | None => NaN
      end
  end.

Definition sample_Number (s : string) : JSNumber := digits_value s 0.

(** * Properties *)

Section Properties.
Context `{C : Collaborators}.

(** Unfold the monad and the calls to the collaborators. *)
Ltac run :=
  repeat progress
    (unfold redis_setex, redis_get, redis_mget, redis_set, redis_del, logger, Date_now,
            db_select, db_count, db_page, ill_typed, at_index,
            as_ISlimUser, as_ISlimSubject, as_ISubject, as_ITopic, as_IEpisode,
            as_IPaged, as_TrendingItems, mbind, M_bind, mret, M_ret;
     cbn [fst snd store redis clock trace emit with_redis payload ttl
          fmap option_fmap option_map mjoin option_join]).

(** The same with the list functions evaluated, for calls on a given list
    of ids. *)
Ltac run_list :=
  repeat progress
    (unfold redis_setex, redis_get, redis_mget, redis_set, redis_del, logger, Date_now,
            db_select, db_count, db_page, ill_typed, at_index,
            as_ISlimUser, as_ISlimSubject, as_ISubject, as_ITopic, as_IEpisode,
            as_IPaged, as_TrendingItems, mbind, M_bind, mret, M_ret;
     cbn -[merge_sort take drop]).

(** Reduce the projections of the resulting world. *)
Ltac world :=
  cbn [store redis clock trace emit with_redis paged_data paged_total fst snd].

(** ** Lists *)

Lemma filter_none {A} (P : A → Prop) `{!∀ x, Decision (P x)} (l : list A) :
  (∀ x, ¬ P x) → filter P l = [].
Proof.
  intros HP. induction l as [|x l IH]; [done|].
  by rewrite filter_cons_False.
Qed.

Lemma filter_none_in {A} (P : A → Prop) `{!∀ x, Decision (P x)} (l : list A) :
  (∀ x, x ∈ l → ¬ P x) → filter P l = [].
Proof.
  intros HP. induction l as [|x l IH]; [done|].
  rewrite filter_cons_False by (apply HP; left).
  apply IH. intros y Hy. apply HP. by right.
Qed.

Lemma filter_and {A} (P Q : A → Prop) `{!∀ x, Decision (P x), !∀ x, Decision (Q x)}
    (l : list A) :
  filter (λ x, P x ∧ Q x) l = filter Q (filter P l).
Proof. rewrite list_filter_filter. apply list_filter_iff. intros x. tauto. Qed.

(** C1.  A slim subject (likewise a full subject) cached with [nsfw = true]
    is absent for a request that disallows NSFW and is the cached record for
    a request that allows it; either way the call only reads the cache: the
    world it leaves differs from the one it found by that one [get]. *)
Theorem nsfw_rechecked_on_cache_hit (id : Z) (w : World) :
  (∀ slim, cached_as w (getSubjectSlimCacheKey id) (PSlimSubject slim) →
     slimSubject_nsfw slim = true →
     fetchSlimSubjectByID id false w
       = (Return None, emit (RedisGet (getSubjectSlimCacheKey id)) w)
     ∧ fetchSlimSubjectByID id true w
       = (Return (Some slim), emit (RedisGet (getSubjectSlimCacheKey id)) w))
  ∧ (∀ item, cached_as w (getSubjectItemCacheKey id) (PSubject item) →
     subjectItem_nsfw item = true →
     fetchSubjectByID id false w
       = (Return None, emit (RedisGet (getSubjectItemCacheKey id)) w)
     ∧ fetchSubjectByID id true w
       = (Return (Some item), emit (RedisGet (getSubjectItemCacheKey id)) w)).
Proof.
  unfold cached_as. split; intros r Hc Hn.
  - unfold fetchSlimSubjectByID. run. rewrite Hc. run. by rewrite Hn.
  - unfold fetchSubjectByID. run. rewrite Hc. run. by rewrite Hn.
Qed.

(** C7.  Called with no ids, the user and slim-subject batch fetchers
    return the empty map untouched by any call, but the topic, episode and
    group-topic batch fetchers have no such guard and issue an [mget] with
    no keys before they return the empty map. *)
Theorem empty_batch_calls (w : World) (allowNsfw : bool) :
  fetchSlimUsersByIDs [] w = (Return ∅, w)
  ∧ fetchSlimSubjectsByIDs [] allowNsfw w = (Return ∅, w)
  ∧ fetchSubjectTopicsByIDs [] w = (Return ∅, emit (RedisMGet []) w)
  ∧ fetchEpisodesByIDs [] w = (Return ∅, emit (RedisMGet []) w)
  ∧ fetchGroupTopicsByIDs [] w = (Return ∅, emit (RedisMGet []) w).
Proof. repeat split; reflexivity. Qed.

(** C8.  With its only requested id a cache hit, [fetchSlimUsersByIDs]
    still sends the batch query, over an empty id list; the slim-subject
    fetcher, which tests [missing.length > 0], sends none. *)
Theorem all_hits_users_query (w : World) (id : Z) (u : ISlimUser)
    (slim : ISlimSubject) (ex : option Z) :
  (let w1 := with_redis (insert (getUserSlimCacheKey id)
                           {| payload := PSlimUser u; ttl := ex |}) w in
   fetchSlimUsersByIDs [id] w1
   = (Return {[ id := u ]},
      emit (DbSelect (SelectUsersByIDs []))
        (emit (RedisMGet [getUserSlimCacheKey id]) w1)))
  ∧ (let w2 := with_redis (insert (getSubjectSlimCacheKey id)
                           {| payload := PSlimSubject slim; ttl := ex |}) w in
     fetchSlimSubjectsByIDs [id] true w2
     = (Return {[ id := slim ]}, emit (RedisMGet [getSubjectSlimCacheKey id]) w2)).
Proof.
  split; intros w0; subst w0.
  - unfold fetchSlimUsersByIDs. run_list. rewrite lookup_insert_eq. run_list.
    rewrite filter_none; [done|]. intros x Hx. inversion Hx.
  - unfold fetchSlimSubjectsByIDs. run_list. rewrite lookup_insert_eq. by run_list.
Qed.

(** C9.  For a banned episode that is in the Store and not in the cache,
    the single lookup excludes it in its query and returns absent without
    writing the cache, while the batch lookup has no ban predicate, returns
    it under its id and writes it into the cache. *)
Theorem banned_episode_single_vs_batch (w : World) (id : Z) (e : EpisodeRow) :
  filter (λ d, episode_id d = id) (chiiEpisodes (store w)) = [e] →
  episode_ban e = 1 →
  redis w !! getSubjectEpCacheKey id = None →
  fetchEpisodeByID id w
  = (Return None,
     emit (DbSelect (SelectEpisodeByID id)) (emit (RedisGet (getSubjectEpCacheKey id)) w))
  ∧ ∃ w', fetchEpisodesByIDs [id] w = (Return {[ id := toEpisode e ]}, w')
      ∧ redis w' = <[ getSubjectEpCacheKey id :=
                        {| payload := PEpisode (toEpisode e); ttl := Some ONE_MONTH |} ]>
                     (redis w)
      ∧ trace w' = trace w ++ [ RedisMGet [getSubjectEpCacheKey id];
                                DbSelect (SelectEpisodesByIDs [id]);
                                RedisSet (getSubjectEpCacheKey id)
                                  (PEpisode (toEpisode e)) (Some ONE_MONTH) ].
Proof.
  intros Hrow Hban Hmiss.
  assert (Hid : episode_id e = id).
  { assert (He : e ∈ filter (λ d, episode_id d = id) (chiiEpisodes (store w)))
      by (rewrite Hrow; apply list_elem_of_here).
    by apply list_elem_of_filter in He as [? _]. }
  split.
  - unfold fetchEpisodeByID. run. rewrite Hmiss. run.
    rewrite filter_and, Hrow. by rewrite filter_cons_False by (intros ?; congruence).
  - unfold fetchEpisodesByIDs. run_list. rewrite Hmiss. run_list.
    rewrite (list_filter_iff _ (λ d, episode_id d = id))
      by (intros x; rewrite list_elem_of_singleton; done).
    rewrite Hrow. run_list. rewrite Hid. eexists. split; [reflexivity|]. world.
    split; [done|]. by rewrite <- !app_assoc.
Qed.

(** ** The trending job *)

Lemma World_eq (w1 w2 : World) :
  store w1 = store w2 → redis w1 = redis w2 → clock w1 = clock w2 →
  trace w1 = trace w2 → w1 = w2.
Proof. destruct w1, w2. cbn. by intros -> -> -> ->. Qed.

Lemma lockKey_ne (subjectType : Z) (period : string) :
  lockKey_of (getSubjectTrendingKey subjectType period)
  ≠ getSubjectTrendingKey subjectType period.
Proof. unfold lockKey_of, getSubjectTrendingKey. cbn. discriminate. Qed.

Local Arguments lockKey_of : simpl never.
Local Arguments getSubjectTrendingKey : simpl never.
Local Arguments trending_query : simpl never.
Local Arguments trending_items : simpl never.

(** The run of the job once it is past the lock check with a period whose
    duration resolves. *)
Lemma update_recomputes (ty : Z) (p : string) (flush : bool) (w : World) (d : Z) :
  flush = true ∨ redis w !! lockKey_of (getSubjectTrendingKey ty p) = None →
  truthy_number (getTrendingPeriodDuration p) = Some d →
  let tk := getSubjectTrendingKey ty p in
  let lk := lockKey_of tk in
  let items := trending_items w ty d in
  updateTrendingSubjects ty p flush w
  = (Return tt,
     {| store := store w;
        redis := delete lk (<[tk := {| payload := PTrending items; ttl := None |}]>
                   (<[lk := the_lock]> (if flush then delete lk (redis w) else redis w)));
        clock := clock w;
        trace := trace w ++ (if flush then [RedisDel lk] else [])
                 ++ [RedisGet lk; RedisSet lk (PNumber 1) (Some 3600); Logged Info;
                     DbSelect (SelectTrending ty (doingDateline_of ty) (clock w - d));
                     RedisSet tk (PTrending items) None; RedisDel lk] |}).
Proof.
  intros Hlock Hd tk lk items. unfold updateTrendingSubjects. fold tk lk.
  destruct flush; run.
  - rewrite lookup_delete_eq. run. rewrite Hd. run.
    f_equal. apply World_eq; world; [done..|]. by rewrite <- !app_assoc.
  - destruct Hlock as [|Hlock]; [done|]. fold tk lk in Hlock. rewrite Hlock. run.
    rewrite Hd. run. f_equal. apply World_eq; world; [done..|]. by rewrite <- !app_assoc.
Qed.

(** C3.  With a live lock and [flush = false] the job only reads the lock
    and logs; with [flush = true] it first deletes the lock, then takes it,
    runs the aggregate query, writes the trending key and releases the lock. *)
Theorem lock_guard_and_flush (ty : Z) (p : string) (w : World) (e : Entry) :
  let tk := getSubjectTrendingKey ty p in
  let lk := lockKey_of tk in
  redis w !! lk = Some e →
  updateTrendingSubjects ty p false w
  = (Return tt, emit (Logged Info) (emit (RedisGet lk) w))
  ∧ ∀ d, truthy_number (getTrendingPeriodDuration p) = Some d →
      ∃ w', updateTrendingSubjects ty p true w = (Return tt, w')
        ∧ trace w' = trace w ++
            [RedisDel lk; RedisGet lk; RedisSet lk (PNumber 1) (Some 3600); Logged Info;
             DbSelect (SelectTrending ty (doingDateline_of ty) (clock w - d));
             RedisSet tk (PTrending (trending_items w ty d)) None; RedisDel lk]
        ∧ cached_as w' tk (PTrending (trending_items w ty d))
        ∧ redis w' !! lk = None.
Proof.
  intros tk lk Hlive. split.
  - unfold updateTrendingSubjects. fold tk lk. run. rewrite Hlive. by run.
  - intros d Hd. eexists. split; [by apply update_recomputes; [left|]|].
    fold tk lk. unfold cached_as. cbn. split; [done|]. split.
    + rewrite lookup_delete_ne by apply lockKey_ne. by rewrite lookup_insert_eq.
    + apply lookup_delete_eq.
Qed.

(** C4.  When the duration of the period does not resolve, a call that is
    past the lock check logs an error and stops: after the lock is set
    nothing but the two log lines follows, so there is no aggregate query,
    the trending key keeps what it held, and the lock stays in the cache
    with its expiry of 3600 seconds. *)
Theorem invalid_period_keeps_lock (ty : Z) (p : string) (flush : bool) (w : World) :
  let tk := getSubjectTrendingKey ty p in
  let lk := lockKey_of tk in
  truthy_number (getTrendingPeriodDuration p) = None →
  flush = true ∨ redis w !! lk = None →
  ∃ w', updateTrendingSubjects ty p flush w = (Return tt, w')
    ∧ trace w' = trace w ++ (if flush then [RedisDel lk] else [])
                 ++ [RedisGet lk; RedisSet lk (PNumber 1) (Some 3600);
                     Logged Info; Logged Error]
    ∧ redis w' !! lk = Some the_lock
    ∧ redis w' !! tk = redis w !! tk
    ∧ store w' = store w.
Proof.
  intros tk lk Hd Hlock. unfold updateTrendingSubjects. fold tk lk.
  assert (Hne : lk ≠ tk) by apply lockKey_ne.
  destruct flush; run.
  - rewrite lookup_delete_eq. run. rewrite Hd. run.
    eexists. split; [reflexivity|]. world. rewrite <- !app_assoc.
    split; [done|]. rewrite lookup_insert_eq.
    by rewrite lookup_insert_ne, lookup_delete_ne.
  - destruct Hlock as [|Hlock]; [done|]. rewrite Hlock. run. rewrite Hd. run.
    eexists. split; [reflexivity|]. world. rewrite <- !app_assoc.
    split; [done|]. rewrite lookup_insert_eq. by rewrite lookup_insert_ne.
Qed.

(** ** The ranked list *)

Global Instance count_desc_trans : Transitive count_desc.
Proof. unfold count_desc. intros a b c ??. lia. Qed.

Global Instance count_desc_total : Total count_desc.
Proof. unfold count_desc. intros a b. lia. Qed.

Lemma trending_query_sorted (s : Store) (ty : Z) (doing : bool) (m : Z) :
  StronglySorted count_desc (trending_query s ty doing m).
Proof.
  unfold trending_query.
  set (l := merge_sort count_desc _).
  assert (Hl : StronglySorted count_desc l)
    by (apply StronglySorted_merge_sort; apply _).
  rewrite <- (take_drop 1000 l) in Hl. by apply StronglySorted_app_1_l in Hl.
Qed.

Lemma trending_query_elem (s : Store) (ty : Z) (doing : bool) (m : Z) (x : Z * Z) :
  x ∈ trending_query s ty doing m →
  x ∈ group_count (trending_rows s ty doing m).
Proof.
  unfold trending_query. intros Hx. apply subseteq_take in Hx.
  by rewrite merge_sort_Permutation in Hx.
Qed.

Lemma group_count_ids (ids : list Z) : (group_count ids).*1 = remove_dups ids.
Proof.
  unfold group_count. rewrite <- list_fmap_compose.
  rewrite <- (list_fmap_id (remove_dups ids)) at 2. by apply list_fmap_ext.
Qed.

Lemma trending_query_NoDup (s : Store) (ty : Z) (doing : bool) (m : Z) :
  NoDup (trending_query s ty doing m).*1.
Proof.
  unfold trending_query. rewrite fmap_take.
  eapply sublist_NoDup; [|apply sublist_take].
  rewrite merge_sort_Permutation, group_count_ids. apply NoDup_remove_dups.
Qed.

Lemma slice_page {A} (l : list A) (offset limit : Z) :
  0 ≤ offset → 0 ≤ limit →
  slice l offset (offset + limit) = take (Z.to_nat limit) (drop (Z.to_nat offset) l).
Proof.
  intros Ho Hl. unfold slice.
  destruct (offset <? 0) eqn:E1; [lia|]. destruct (offset + limit <? 0) eqn:E2; [lia|].
  clear E1 E2.
  destruct (decide (Z.of_nat (length l) ≤ offset)) as [Hge|Hlt].
  - rewrite (drop_ge l (Z.to_nat offset)) by lia.
    rewrite take_nil. rewrite !Z.min_r by lia.
    rewrite Z.sub_diag. apply take_0.
  - rewrite (Z.min_l offset) by lia.
    destruct (decide (offset + limit ≤ Z.of_nat (length l))) as [Hin|Hout].
    + rewrite Z.min_l by lia. f_equal. lia.
    + rewrite Z.min_r by lia. rewrite !take_ge; [done|rewrite length_drop; lia..].
Qed.

Lemma ranked_example (data : list (Z * Z)) :
  data ≡ₚ [(10, 5); (20, 9); (30, 1)] →
  take 1000 (merge_sort count_desc data) = [(20, 9); (10, 5); (30, 1)].
Proof.
  intros Hp.
  assert (Hs : merge_sort count_desc data = [(20, 9); (10, 5); (30, 1)]).
  { apply (StronglySorted_unique_strong count_desc).
    - intros x1 x2 H1 H2. rewrite merge_sort_Permutation, Hp in H1.
      unfold count_desc.
      repeat match goal with
             | H : _ ∈ _ :: _ |- _ => apply elem_of_cons in H as [->|H]
             | H : _ ∈ [] |- _ => by apply elem_of_nil in H
             end; cbn; intros; (done || lia).
    - apply StronglySorted_merge_sort; apply _.
    - unfold count_desc.
      repeat (constructor; [|repeat (constructor; [cbn; lia|]); constructor]).
      constructor.
    - rewrite merge_sort_Permutation, Hp.
      rewrite (Permutation_swap (10, 5) (20, 9)). done. }
  by rewrite Hs.
Qed.

(** C5.  A recomputation writes, under the trending key and with no
    expiry, one item per subject with its number of counted rows, ordered by
    descending total and cut to 1000 items; a read returns the items at
    positions [offset, offset + limit) of the cached list, or nothing when
    no list is cached, and does nothing but the one cache [get].  Counts
    {10:5, 20:9, 30:1} give the list 20, 10, 30, of which a read with limit 2
    and offset 1 returns 10, 30. *)
Theorem trending_ranked_and_sliced (ty : Z) (p : string) :
  let tk := getSubjectTrendingKey ty p in
  (∀ flush w d,
     flush = true ∨ redis w !! lockKey_of tk = None →
     truthy_number (getTrendingPeriodDuration p) = Some d →
     ∃ w', updateTrendingSubjects ty p flush w = (Return tt, w')
       ∧ redis w' !! tk
         = Some {| payload := PTrending (trending_items w ty d); ttl := None |})
  ∧ (∀ w d,
       let rows := trending_rows (store w) ty (doingDateline_of ty) (clock w - d) in
       let items := trending_items w ty d in
       StronglySorted total_desc items
       ∧ (length items ≤ 1000)%nat
       ∧ NoDup (item_id <$> items)
       ∧ (∀ it, it ∈ items →
            item_id it ∈ rows
            ∧ item_total it = Z.of_nat (length (filter (λ id, id = item_id it) rows)))
       ∧ (group_count rows ≡ₚ [(10, 5); (20, 9); (30, 1)] →
            items = to_item <$> [(20, 9); (10, 5); (30, 1)]))
  ∧ (∀ w l limit offset,
       cached_as w tk (PTrending l) → 0 ≤ offset → 0 ≤ limit →
       getTrendingSubjects ty p limit offset w
       = (Return (take (Z.to_nat limit) (drop (Z.to_nat offset) l)),
          emit (RedisGet tk) w))
  ∧ (∀ w limit offset,
       redis w !! tk = None →
       getTrendingSubjects ty p limit offset w = (Return [], emit (RedisGet tk) w))
  ∧ (∀ w, cached_as w tk (PTrending (to_item <$> [(20, 9); (10, 5); (30, 1)])) →
       getTrendingSubjects ty p 2 1 w
       = (Return (to_item <$> [(10, 5); (30, 1)]), emit (RedisGet tk) w)).
Proof.
  intros tk. repeat apply conj.
  - intros flush w d Hlock Hd. eexists. split; [by apply update_recomputes|].
    cbn. rewrite lookup_delete_ne by apply lockKey_ne. by rewrite lookup_insert_eq.
  - intros w d rows items. unfold items, trending_items. fold rows. repeat apply conj.
    + apply (StronglySorted_fmap _ count_desc); [done|]. apply trending_query_sorted.
    + unfold trending_query. rewrite length_fmap, length_take. lia.
    + rewrite <- list_fmap_compose. apply (trending_query_NoDup (store w)).
    + intros it (x & -> & Hx)%list_elem_of_fmap.
      apply trending_query_elem in Hx. fold rows in Hx. unfold group_count in Hx.
      apply list_elem_of_fmap in Hx as (id & -> & Hid). cbn.
      rewrite elem_of_remove_dups in Hid. by split.
    + intros Hp. unfold trending_query. fold rows. by rewrite ranked_example.
  - intros w l limit offset Hc Ho Hl. unfold getTrendingSubjects. fold tk. run.
    unfold cached_as in Hc. rewrite Hc. run. by rewrite slice_page.
  - intros w limit offset Hn. unfold getTrendingSubjects. fold tk. run.
    rewrite Hn. by run.
  - intros w Hc. unfold getTrendingSubjects. fold tk. run.
    unfold cached_as in Hc. rewrite Hc. by run.
Qed.

(** ** The list cache *)

Lemma set_ids_set_ids (fl : SubjectFilter) (a b : list Z) :
  set_ids (set_ids fl a) b = set_ids fl b.
Proof. done. Qed.

Lemma resolve_tags_run (fl : SubjectFilter) (w : World) :
  ∃ w', resolve_tags fl w
        = (Return (match filter_tags fl with
                   | Some tags =>
                       let subjectIDs := tagged_subjects (store w) (filter_type fl) tags in
                       set_ids fl (match filter_ids fl with
                                   | Some ids => filter (λ id, id ∈ subjectIDs) ids
                                   | None => subjectIDs
                                   end)
                   | None => fl
                   end), w')
    ∧ store w' = store w ∧ redis w' = redis w.
Proof.
  unfold resolve_tags, tagged_subjects.
  destruct (filter_tags fl) as [tags|]; [|by eexists].
  run. destruct (filter_ids fl); run; by eexists.
Qed.

Lemma Math_ceil_div_24 (count : Z) :
  24 * (Math_ceil_div count 24 - 1) < count ≤ 24 * Math_ceil_div count 24.
Proof.
  unfold Math_ceil_div.
  pose proof (Z.div_mod (- count) 24 ltac:(lia)).
  pose proof (Z.mod_pos_bound (- count) 24 ltac:(lia)). lia.
Qed.

Local Arguments conditions_of : simpl never.
Local Arguments matching : simpl never.

Lemma query_page_run (key : string) (fl : SubjectFilter) (sort : SubjectSort)
    (page : Z) (w : World) :
  (sort = Trends → is_Some (filter_ids fl)) →
  let count := Z.of_nat (length (matching (conditions_of fl sort) (store w))) in
  ∃ r w', query_page key fl sort page w = (Return r, w')
    ∧ paged_total r = Math_ceil_div count 24
    ∧ (length (paged_data r) ≤ 24)%nat
    ∧ (count ≠ 0 →
         (∃ order, paged_data r = page_of (store w) (conditions_of fl sort) order page)
         ∧ redis w' !! key
           = Some {| payload := PPaged r;
                     ttl := Some (if page =? 1 then 86400 else 3600) |}).
Proof.
  intros Hids count. unfold query_page. run. fold count.
  destruct (count =? 0) eqn:Hc.
  { apply Z.eqb_eq in Hc. rewrite Hc. do 2 eexists. split; [reflexivity|].
    cbn. repeat split; (done || lia). }
  apply Z.eqb_neq in Hc.
  assert (∃ order, match sort with
                   | Rank => Some RankAsc
                   | Trends => FindInSet <$> filter_ids fl
                   | Collects => Some CollectDesc
                   | Date => Some DateDesc
                   | Title => Some NameAsc
                   end = Some order) as [order ->].
  { destruct sort; try by eexists.
    destruct (Hids eq_refl) as [ids ->]. by eexists. }
  run. destruct (page =? 1) eqn:Hp; run;
    (do 2 eexists; split; [reflexivity|]; world;
     split; [done|]; split; [rewrite length_fmap, length_take; lia|];
     intros _; split; [by exists order|by rewrite lookup_insert_eq]).
Qed.

Lemma resolve_trending_run (fl : SubjectFilter) (sort : SubjectSort) (w : World)
    (l : list TrendingItem) :
  (sort = Trends →
   cached_as w (getTrendingSubjectKey (filter_type fl) TrendingPeriod_Month) (PTrending l)) →
  ∃ w', resolve_trending fl sort w
        = (Return (Some (if decide (sort = Trends) then set_ids fl (item_id <$> l)
                         else fl)), w')
    ∧ store w' = store w ∧ redis w' = redis w.
Proof.
  intros Htrend. unfold resolve_trending.
  destruct (decide (sort = Trends)) as [Ht|Ht]; [|by eexists].
  specialize (Htrend Ht). unfold cached_as in Htrend. run. rewrite Htrend. run.
  by eexists.
Qed.

(** The run of [fetchSubjectIDsByFilter] on a miss of the list cache. *)
Lemma fetch_page_on_miss (fl : SubjectFilter) (sort : SubjectSort) (page : Z)
    (w : World) (l : list TrendingItem) :
  let key := getSubjectListCacheKey fl sort page in
  redis w !! key = None →
  (sort = Trends →
   cached_as w (getTrendingSubjectKey (filter_type fl) TrendingPeriod_Month) (PTrending l)) →
  let fl' := filter_after (store w) fl sort l in
  let count := Z.of_nat (length (matching (conditions_of fl' sort) (store w))) in
  ∃ r w', fetchSubjectIDsByFilter fl sort page w = (Return (r, fl'), w')
    ∧ paged_total r = Math_ceil_div count 24
    ∧ (length (paged_data r) ≤ 24)%nat
    ∧ (count ≠ 0 →
         (∃ order, paged_data r = page_of (store w) (conditions_of fl' sort) order page)
         ∧ redis w' !! key
           = Some {| payload := PPaged r;
                     ttl := Some (if page =? 1 then 86400 else 3600) |}).
Proof.
  intros key Hmiss Htrend fl' count.
  unfold fetchSubjectIDsByFilter. fold key. run. rewrite Hmiss. run.
  destruct (resolve_trending_run fl sort (emit (RedisGet key) w) l Htrend)
    as (w1 & -> & Hs1 & Hr1).
  set (fl1 := if decide (sort = Trends) then _ else _).
  destruct (resolve_tags_run fl1 w1) as (w2 & -> & Hs2 & Hr2).
  rewrite Hs1 in *. cbn in Hs2.
  set (fl2 := match filter_tags fl1 with Some _ => _ | None => _ end).
  assert (Hfl : fl2 = fl').
  { unfold fl2, fl', filter_after, ids_after, fl1. clear.
    destruct fl as [ty nsfw cat series year month tags ids]. unfold set_ids. cbn.
    destruct (decide (sort = Trends)); cbn; destruct tags; cbn; try done;
      destruct ids; done. }
  assert (Hids : sort = Trends → is_Some (filter_ids fl2)).
  { intros Ht. unfold fl2, fl1. rewrite decide_True by done. cbn.
    destruct (filter_tags fl); by eexists. }
  destruct (query_page_run key fl2 sort page w2 Hids) as (r & w3 & -> & Ht & Hlen & Hc).
  rewrite Hs2, Hfl in *. by exists r, w3.
Qed.

(** C2, as the code has it.  On a miss of the list cache (for the trending
    sort, with a trending list cached) the [total] of the page returned is
    the number of 24-item pages the matching rows fill, the matching row
    count divided by 24 and rounded up, and not that count itself; [data]
    is one page of at most 24 ids, and a page of a non-empty match is
    written to the list cache as returned. *)
Theorem paged_total_is_page_count (fl : SubjectFilter) (sort : SubjectSort) (page : Z)
    (w : World) (l : list TrendingItem) :
  let key := getSubjectListCacheKey fl sort page in
  redis w !! key = None →
  (sort = Trends →
   cached_as w (getTrendingSubjectKey (filter_type fl) TrendingPeriod_Month) (PTrending l)) →
  ∃ r fl' w', fetchSubjectIDsByFilter fl sort page w = (Return (r, fl'), w')
    ∧ let count := Z.of_nat (length (matching (conditions_of fl' sort) (store w))) in
      paged_total r = Math_ceil_div count 24
      ∧ 24 * (paged_total r - 1) < count ≤ 24 * paged_total r
      ∧ (length (paged_data r) ≤ 24)%nat
      ∧ (count ≠ 0 →
           (∃ order, paged_data r = page_of (store w) (conditions_of fl' sort) order page)
           ∧ redis w' !! key
             = Some {| payload := PPaged r;
                       ttl := Some (if page =? 1 then 86400 else 3600) |}).
Proof.
  intros key Hmiss Htrend.
  destruct (fetch_page_on_miss fl sort page w l Hmiss Htrend)
    as (r & w' & Hrun & Htotal & Hlen & Hc).
  exists r, (filter_after (store w) fl sort l), w'.
  split; [done|]. cbn zeta. rewrite Htotal.
  split; [done|]. split; [apply Math_ceil_div_24|]. by split.
Qed.

(** C10.  On a miss of the list cache the call leaves the caller's filter
    with [ids] overwritten: by the trending ids for the trending sort, and,
    when tags are given, by the tag-matched subject ids, or by those of the
    ids it held (the trending ids for the trending sort) that are
    tag-matched.  No other field changes, and without tags and trending
    sort the filter is left as it was. *)
Theorem filter_argument_mutated (fl : SubjectFilter) (sort : SubjectSort) (page : Z)
    (w : World) (l : list TrendingItem) :
  redis w !! getSubjectListCacheKey fl sort page = None →
  (sort = Trends →
   cached_as w (getTrendingSubjectKey (filter_type fl) TrendingPeriod_Month) (PTrending l)) →
  ∃ r fl' w', fetchSubjectIDsByFilter fl sort page w = (Return (r, fl'), w')
    ∧ (sort = Trends → filter_tags fl = None → filter_ids fl' = Some (item_id <$> l))
    ∧ (∀ tags, filter_tags fl = Some tags →
         let subjectIDs := tagged_subjects (store w) (filter_type fl) tags in
         filter_ids fl'
         = Some (match (if decide (sort = Trends) then Some (item_id <$> l)
                        else filter_ids fl) with
                 | Some ids => filter (λ id, id ∈ subjectIDs) ids
                 | None => subjectIDs
                 end))
    ∧ (sort ≠ Trends → filter_tags fl = None → fl' = fl)
    ∧ (∀ ids, set_ids fl' ids = set_ids fl ids).
Proof.
  intros Hmiss Htrend.
  destruct (fetch_page_on_miss fl sort page w l Hmiss Htrend) as (r & w' & Hrun & _).
  exists r, (filter_after (store w) fl sort l), w'.
  split; [done|]. unfold filter_after, ids_after. clear.
  destruct fl as [ty nsfw cat series year month tags ids]. unfold set_ids. cbn.
  repeat apply conj.
  - intros -> ->. by rewrite decide_True.
  - intros tags' ->. done.
  - intros Hs ->. rewrite decide_False by done. by destruct ids.
  - intros ids'. destruct tags; [done|]. by destruct (decide (sort = Trends)), ids.
Qed.

(** ** Batch lookups *)

Lemma bind_run {A B} (m : M A) (f : A → M B) (w w1 : World) (a : A) :
  m w = (Return a, w1) → (m ≫= f) w = f a w1.
Proof. intros Hm. unfold mbind, M_bind. by rewrite Hm. Qed.

(** A loop whose body is a pure step on the loop state and a fixed effect
    on the world is a fold of each. *)
Lemma for_of_foldl {A S} (xs : list A) (body : S → A → M S) (step : S → A → S)
    (effect : A → World → World) (s : S) (w : World) :
  (∀ s x w, x ∈ xs → body s x w = (Return (step s x), effect x w)) →
  for_of xs body s w = (Return (foldl step s xs), foldl (λ w x, effect x w) w xs).
Proof.
  revert s w. induction xs as [|x xs IH]; intros s w Hbody; [done|].
  cbn. erewrite bind_run; [|apply Hbody; left].
  apply IH. intros s' x' w' Hx'. apply Hbody. by right.
Qed.

Lemma uniq_elem (l : list Z) (x : Z) : x ∈ uniq l ↔ x ∈ l.
Proof.
  induction l as [|y l IH]; [done|]. cbn.
  rewrite !elem_of_cons, list_elem_of_filter, IH.
  destruct (decide (x = y)); tauto.
Qed.

Lemma uniq_NoDup (l : list Z) : NoDup (uniq l).
Proof.
  induction l as [|y l IH]; cbn; constructor.
  - rewrite list_elem_of_filter. tauto.
  - by apply NoDup_filter.
Qed.

Lemma entries_values {A} (xs : list A) : (entries xs).*2 = xs.
Proof.
  unfold entries.
  assert (∀ g : nat → A → nat * A, (∀ i x, (g i x).2 = x) → (imap g xs).*2 = xs) as H.
  { induction xs as [|x xs IH]; intros g Hg; [done|].
    cbn. rewrite Hg. f_equal. apply IH. intros i y. apply Hg. }
  by apply H.
Qed.

Lemma at_index_all_missing (cached : list (option Payload)) (idx : nat) :
  Forall (λ c, c = None) cached → at_index cached idx = None.
Proof.
  intros Hall. unfold at_index. destruct (cached !! idx) as [c|] eqn:E; [|done].
  cbn. eapply Forall_lookup_1 in Hall; eauto.
Qed.

Lemma collect_missing {T} (es : list (nat * Z)) (result : gmap Z T) (missing : list Z) :
  foldl (λ '(result, missing) '(_, id), (result, missing ++ [id])) (result, missing) es
  = (result, missing ++ es.*2).
Proof.
  revert missing. induction es as [|[idx id] es IH]; intros missing; cbn.
  - by rewrite app_nil_r.
  - by rewrite IH, <- app_assoc.
Qed.

Lemma write_back_trace {R} (key : R → string) (value : R → Payload) (seconds : Z)
    (data : list R) (w : World) :
  store (foldl (λ w d, write_back key value seconds d w) w data) = store w
  ∧ ∃ writes,
      trace (foldl (λ w d, write_back key value seconds d w) w data) = trace w ++ writes
      ∧ Forall is_cache_write writes.
Proof.
  revert w. induction data as [|d data IH]; intros w; cbn.
  - split; [done|]. exists []. by rewrite app_nil_r.
  - destruct (IH (write_back key value seconds d w)) as (Hs & writes & Ht & Hw).
    split; [done|].
    exists (RedisSet (key d) (value d) (Some seconds) :: writes).
    split; [|by constructor]. rewrite Ht. cbn. by rewrite <- app_assoc.
Qed.

(** The last visible row of an id wins. *)
Lemma keep_lookup {R T} (id : R → Z) (hidden : R → bool) (conv : R → T)
    (data : list R) (result : gmap Z T) (k : Z) :
  foldl (keep id hidden conv) result data !! k
  = match last (filter (λ d, id d = k ∧ hidden d = false) data) with
    | Some d => Some (conv d)
    | None => result !! k
    end.
Proof.
  induction data as [|d data IH] using rev_ind; [done|].
  rewrite foldl_snoc, filter_app. unfold keep at 1.
  destruct (decide (id d = k ∧ hidden d = false)) as [[Hid Hv]|Hn].
  - rewrite filter_cons_True, filter_nil, last_snoc by done.
    rewrite Hv, Hid. apply lookup_insert_eq.
  - rewrite filter_cons_False, filter_nil, app_nil_r by done.
    destruct (hidden d) eqn:Hh; [done|].
    rewrite lookup_insert_ne; [done|]. intros Hid. by apply Hn.
Qed.

(** The batch lookup of slim subjects when none of the ids is cached. *)
Lemma slim_subjects_on_miss (ids : list Z) (allowNsfw : bool) (w : World) :
  ids ≠ [] →
  (∀ x, x ∈ ids → redis w !! getSubjectSlimCacheKey x = None) →
  let hidden d := negb allowNsfw && slimSubject_nsfw (toSlimSubject d.1 d.2) in
  let data := filter (λ d, subject_id d.1 ∈ uniq ids ∧ subject_ban d.1 ≠ 1)
                (subjects_join_fields (store w)) in
  ∃ result w', fetchSlimSubjectsByIDs ids allowNsfw w = (Return result, w')
    ∧ (∀ k, result !! k
            = (λ d, toSlimSubject d.1 d.2)
                <$> last (filter (λ d, subject_id d.1 = k ∧ hidden d = false) data))
    ∧ ∃ writes,
        trace w' = trace w ++ RedisMGet (getSubjectSlimCacheKey <$> uniq ids)
                     :: DbSelect (SelectSubjectsByIDs (uniq ids)) :: writes
        ∧ Forall is_cache_write writes.
Proof.
  intros Hne Hmiss hidden data. unfold fetchSlimSubjectsByIDs.
  assert (Hlen0 : (length ids =? 0)%nat = false) by (by destruct ids).
  assert (Hlen : (0 <? length (uniq ids))%nat = true) by (by destruct ids).
  rewrite Hlen0. cbn zeta. erewrite bind_run; [|reflexivity].
  set (cached := (λ k, payload <$> redis w !! k) <$> (getSubjectSlimCacheKey <$> uniq ids)).
  set (w1 := emit _ w).
  assert (Hall : Forall (λ c, c = None) cached).
  { unfold cached. rewrite <- list_fmap_compose. apply Forall_fmap, Forall_forall.
    intros x Hx. rewrite uniq_elem in Hx. cbn. by rewrite Hmiss. }
  erewrite bind_run; cycle 1.
  { apply (for_of_foldl _ _
             (λ '(result, missing) '(_, id), (result, missing ++ [id])) (λ _ w, w)).
    intros [result missing] [idx id] w0 _. by rewrite at_index_all_missing. }
  rewrite collect_missing, entries_values. cbn [app].
  replace (foldl (λ w0 _, w0) w1 (entries (uniq ids))) with w1
    by (generalize (entries (uniq ids)); intros es; induction es; done).
  rewrite Hlen. erewrite bind_run; [|reflexivity].
  change (store w1) with (store w). fold data.
  erewrite (for_of_foldl data _
    (keep (λ d, subject_id d.1) hidden (λ d, toSlimSubject d.1 d.2))
    (write_back (λ d, getSubjectSlimCacheKey (subject_id d.1))
                (λ d, PSlimSubject (toSlimSubject d.1 d.2)) ONE_MONTH)); cycle 1.
  { intros result d w0 _. unfold keep, hidden. run.
    by destruct (negb allowNsfw && slimSubject_nsfw _). }
  do 2 eexists. split; [reflexivity|]. split.
  - intros k. rewrite keep_lookup. by destruct (last _).
  - destruct (write_back_trace (λ d, getSubjectSlimCacheKey (subject_id d.1))
                 (λ d, PSlimSubject (toSlimSubject d.1 d.2)) ONE_MONTH data
                 (emit (DbSelect (SelectSubjectsByIDs (uniq ids))) w1))
      as (_ & writes & -> & Hw).
    exists writes. split; [|done]. unfold w1. cbn. by rewrite <- !app_assoc.
Qed.

Lemma visible_rows_of (s : Store) (k : Z) (U : list Z)
    (hidden : SubjectRow * SubjectFieldsRow → bool) :
  filter (λ d, subject_id d.1 = k ∧ hidden d = false)
    (filter (λ d, subject_id d.1 ∈ U ∧ subject_ban d.1 ≠ 1) (subjects_join_fields s))
  = filter (λ d, k ∈ U ∧ subject_ban d.1 ≠ 1 ∧ hidden d = false) (subject_rows s k).
Proof.
  unfold subject_rows. rewrite !list_filter_filter. apply list_filter_iff.
  intros d. split.
  - intros [[<- ?] [? ?]]. tauto.
  - intros [(? & ? & ?) <-]. tauto.
Qed.

(** C6.  For an input whose ids are 1, 2 and 3 in any order and with any
    repeats, such as [1,2,2,3], none of them cached, a Store that holds
    subjects 1 and 3 unbanned and subject 2 banned, and a request that may
    see subjects 1 and 3, the map returned has exactly the keys 1 and 3,
    bound to the converted rows; the cache is read and the Store queried
    once, over the de-duplicated ids. *)
Theorem batch_dedup_and_ban (ids : list Z) (allowNsfw : bool) (w : World)
    (d1 d3 : SubjectRow * SubjectFieldsRow) :
  (∀ x, x ∈ ids ↔ x ∈ [1; 2; 3]) →
  (∀ x, x ∈ ids → redis w !! getSubjectSlimCacheKey x = None) →
  subject_rows (store w) 1 = [d1] → subject_ban d1.1 ≠ 1 →
  subject_rows (store w) 3 = [d3] → subject_ban d3.1 ≠ 1 →
  subject_rows (store w) 2 ≠ [] →
  Forall (λ d, subject_ban d.1 = 1) (subject_rows (store w) 2) →
  (allowNsfw = false →
   slimSubject_nsfw (toSlimSubject d1.1 d1.2) = false
   ∧ slimSubject_nsfw (toSlimSubject d3.1 d3.2) = false) →
  ∃ result w', fetchSlimSubjectsByIDs ids allowNsfw w = (Return result, w')
    ∧ dom result = {[1; 3]}
    ∧ result !! 1 = Some (toSlimSubject d1.1 d1.2)
    ∧ result !! 3 = Some (toSlimSubject d3.1 d3.2)
    ∧ NoDup (uniq ids)
    ∧ ∃ writes,
        trace w' = trace w ++ RedisMGet (getSubjectSlimCacheKey <$> uniq ids)
                     :: DbSelect (SelectSubjectsByIDs (uniq ids)) :: writes
        ∧ Forall is_cache_write writes.
Proof.
  intros Hids Hmiss H1 Hb1 H3 Hb3 _ H2 Hshown.
  assert (Hne : ids ≠ []).
  { intros ->. specialize (Hids 1). rewrite elem_of_nil in Hids.
    apply Hids. left. }
  destruct (slim_subjects_on_miss ids allowNsfw w Hne Hmiss)
    as (result & w' & Hrun & Hlookup & Htrace).
  set (hidden := λ d : SubjectRow * SubjectFieldsRow,
         negb allowNsfw && slimSubject_nsfw (toSlimSubject d.1 d.2)) in *.
  assert (Hv : hidden d1 = false ∧ hidden d3 = false).
  { unfold hidden. destruct allowNsfw; [done|].
    destruct (Hshown eq_refl) as [-> ->]. done. }
  destruct Hv as [Hv1 Hv3].
  assert (Hin : ∀ k, k ∈ uniq ids ↔ k = 1 ∨ k = 2 ∨ k = 3).
  { intros k. rewrite uniq_elem, Hids, !elem_of_cons, elem_of_nil. tauto. }
  assert (Hk : ∀ k, result !! k
                    = if decide (k = 1) then Some (toSlimSubject d1.1 d1.2)
                      else if decide (k = 3) then Some (toSlimSubject d3.1 d3.2)
                      else None).
  { intros k. rewrite Hlookup, visible_rows_of.
    destruct (decide (k = 1)) as [->|Hn1].
    { rewrite H1, filter_cons_True; [done|]. rewrite Hin. tauto. }
    destruct (decide (k = 3)) as [->|Hn3].
    { rewrite H3, filter_cons_True; [done|]. rewrite Hin. tauto. }
    rewrite filter_none_in; [done|]. intros d Hd (Hu & Hban & _).
    apply Hin in Hu as [?|[->|?]]; try done.
    rewrite Forall_forall in H2. by apply Hban, H2. }
  exists result, w'. split; [done|]. split.
  { apply set_eq. intros k. rewrite elem_of_dom, Hk.
    rewrite elem_of_union, !elem_of_singleton.
    destruct (decide (k = 1)), (decide (k = 3)); split;
      first [by eauto | intros [?|?]; done | by intros [? ?]]. }
  rewrite !Hk. cbn. split; [done|]. split; [done|]. split; [apply uniq_NoDup|done].
Qed.

(** ** Read-through on single lookups *)

(** X1.  A miss of [fetchSlimSubjectByID] that finds an unbanned row writes
    its conversion to the cache for a month whether or not the request may
    see it, so a record withheld from a request that disallows NSFW is
    handed out from the cache, with no further Store query, to the next
    request that allows it. *)
Theorem slim_subject_read_through (id : Z) (allowNsfw allowNsfw' : bool) (w : World)
    (d : SubjectRow * SubjectFieldsRow) (rest : list (SubjectRow * SubjectFieldsRow)) :
  redis w !! getSubjectSlimCacheKey id = None →
  filter (λ d, subject_id d.1 = id ∧ subject_ban d.1 ≠ 1)
    (subjects_join_fields (store w)) = d :: rest →
  let key := getSubjectSlimCacheKey id in
  let slim := toSlimSubject d.1 d.2 in
  let shown (allow : bool) :=
    if negb allow && slimSubject_nsfw slim then None else Some slim in
  ∃ w1, fetchSlimSubjectByID id allowNsfw w = (Return (shown allowNsfw), w1)
    ∧ redis w1 = <[key := {| payload := PSlimSubject slim; ttl := Some ONE_MONTH |}]>
                   (redis w)
    ∧ trace w1 = trace w ++ [RedisGet key; DbSelect (SelectSubjectByID id);
                             RedisSet key (PSlimSubject slim) (Some ONE_MONTH)]
    ∧ fetchSlimSubjectByID id allowNsfw' w1
      = (Return (shown allowNsfw'), emit (RedisGet key) w1).
Proof.
  intros Hmiss Hrow key slim shown. unfold fetchSlimSubjectByID. fold key in Hmiss |- *.
  run. rewrite Hmiss. run. rewrite Hrow. cbn [head]. fold slim. run.
  eexists. split.
  { unfold shown. destruct (negb allowNsfw && slimSubject_nsfw slim); reflexivity. }
  world. split; [done|]. split; [by rewrite <- !app_assoc|].
  rewrite lookup_insert_eq. run. unfold shown.
  by destruct (negb allowNsfw' && slimSubject_nsfw slim).
Qed.

(** X2.  [fetchSlimSubjectByID] caches no absence: when the Store has no
    unbanned row for the id the call returns absent and leaves the cache as
    it was, and the same call made again queries the Store again. *)
Theorem slim_subject_absence_not_cached (id : Z) (allowNsfw : bool) (w : World) :
  redis w !! getSubjectSlimCacheKey id = None →
  filter (λ d, subject_id d.1 = id ∧ subject_ban d.1 ≠ 1)
    (subjects_join_fields (store w)) = [] →
  let key := getSubjectSlimCacheKey id in
  ∃ w1 w2, fetchSlimSubjectByID id allowNsfw w = (Return None, w1)
    ∧ redis w1 = redis w
    ∧ fetchSlimSubjectByID id allowNsfw w1 = (Return None, w2)
    ∧ redis w2 = redis w
    ∧ trace w2 = trace w ++ [RedisGet key; DbSelect (SelectSubjectByID id);
                             RedisGet key; DbSelect (SelectSubjectByID id)].
Proof.
  intros Hmiss Hrow key. unfold fetchSlimSubjectByID. fold key in Hmiss |- *.
  run. rewrite Hmiss. run. rewrite Hrow. cbn [head]. run.
  do 2 eexists. split; [reflexivity|]. world. split; [done|].
  rewrite Hmiss. run. rewrite Hrow. cbn [head]. run.
  split; [reflexivity|]. world. split; [done|]. by rewrite <- !app_assoc.
Qed.

(** X3.  The ban on an episode leaks through the cache: once the batch
    lookup has fetched a banned episode, which its query does not exclude,
    the single lookup, whose own query would exclude it, returns that
    episode from the cache. *)
Theorem banned_episode_served_after_batch (w : World) (id : Z) (e : EpisodeRow) :
  filter (λ d, episode_id d = id) (chiiEpisodes (store w)) = [e] →
  episode_ban e = 1 →
  redis w !! getSubjectEpCacheKey id = None →
  fetchEpisodeByID id w
  = (Return None,
     emit (DbSelect (SelectEpisodeByID id)) (emit (RedisGet (getSubjectEpCacheKey id)) w))
  ∧ ∃ w', fetchEpisodesByIDs [id] w = (Return {[ id := toEpisode e ]}, w')
      ∧ fetchEpisodeByID id w'
        = (Return (Some (toEpisode e)), emit (RedisGet (getSubjectEpCacheKey id)) w').
Proof.
  intros Hrow Hban Hmiss.
  assert (Hid : episode_id e = id).
  { assert (He : e ∈ filter (λ d, episode_id d = id) (chiiEpisodes (store w)))
      by (rewrite Hrow; apply list_elem_of_here).
    by apply list_elem_of_filter in He as [? _]. }
  split.
  - unfold fetchEpisodeByID. run. rewrite Hmiss. run.
    rewrite filter_and, Hrow. by rewrite filter_cons_False by (intros ?; congruence).
  - unfold fetchEpisodesByIDs. run_list. rewrite Hmiss. run_list.
    rewrite (list_filter_iff _ (λ d, episode_id d = id))
      by (intros x; rewrite list_elem_of_singleton; done).
    rewrite Hrow. run_list. rewrite Hid. eexists. split; [reflexivity|].
    unfold fetchEpisodeByID. run. rewrite lookup_insert_eq. by run.
Qed.

(** ** Read-through on the list cache *)

(** X4.  A page of a non-empty match is served from the cache the second
    time: the same call made again returns the same page after a single
    cache read, with no lookup of the trending list or of tags and no Store
    query, and this time leaves the caller's filter as it was passed. *)
Theorem subject_page_read_through (fl : SubjectFilter) (sort : SubjectSort) (page : Z)
    (w : World) (l : list TrendingItem) :
  let key := getSubjectListCacheKey fl sort page in
  redis w !! key = None →
  (sort = Trends →
   cached_as w (getTrendingSubjectKey (filter_type fl) TrendingPeriod_Month) (PTrending l)) →
  matching (conditions_of (filter_after (store w) fl sort l) sort) (store w) ≠ [] →
  ∃ r fl' w', fetchSubjectIDsByFilter fl sort page w = (Return (r, fl'), w')
    ∧ fetchSubjectIDsByFilter fl sort page w' = (Return (r, fl), emit (RedisGet key) w').
Proof.
  intros key Hmiss Htrend Hcount.
  destruct (fetch_page_on_miss fl sort page w l Hmiss Htrend)
    as (r & w' & Hrun & _ & _ & Hc).
  destruct Hc as [_ Hcached].
  { destruct (matching _ _); [done|]. cbn [length]. lia. }
  exists r, (filter_after (store w) fl sort l), w'. split; [done|].
  unfold fetchSubjectIDsByFilter. fold key in Hcached |- *. run. rewrite Hcached. by run.
Qed.

(** X5.  Sorting by trends while no trending list is cached yields the
    empty page with total 0 after the two cache reads alone: no Store query
    is issued, nothing is written to the cache and the filter is not
    touched. *)
Theorem trends_without_list (fl : SubjectFilter) (page : Z) (w : World) :
  let key := getSubjectListCacheKey fl Trends page in
  let trendingKey := getTrendingSubjectKey (filter_type fl) TrendingPeriod_Month in
  redis w !! key = None →
  redis w !! trendingKey = None →
  fetchSubjectIDsByFilter fl Trends page w
  = (Return (empty_page, fl), emit (RedisGet trendingKey) (emit (RedisGet key) w)).
Proof.
  intros key trendingKey Hmiss Hnone.
  unfold fetchSubjectIDsByFilter, resolve_trending.
  fold key in Hmiss |- *. fold trendingKey in Hnone |- *.
  run. rewrite Hmiss. run. rewrite decide_True by done. run. rewrite Hnone. by run.
Qed.

Lemma resolve_trending_world (fl : SubjectFilter) (sort : SubjectSort) (w : World)
    (l : list TrendingItem) :
  (sort = Trends →
   cached_as w (getTrendingSubjectKey (filter_type fl) TrendingPeriod_Month) (PTrending l)) →
  resolve_trending fl sort w
  = (Return (Some (if decide (sort = Trends) then set_ids fl (item_id <$> l) else fl)),
     if decide (sort = Trends)
     then emit (RedisGet (getTrendingSubjectKey (filter_type fl) TrendingPeriod_Month)) w
     else w).
Proof.
  intros Htrend. unfold resolve_trending.
  destruct (decide (sort = Trends)) as [Ht|Ht]; [|done].
  specialize (Htrend Ht). unfold cached_as in Htrend. run. rewrite Htrend. by run.
Qed.

Lemma resolve_tags_world (fl : SubjectFilter) (w : World) :
  ∃ w', resolve_tags fl w
        = (Return (match filter_tags fl with
                   | Some tags =>
                       let subjectIDs := tagged_subjects (store w) (filter_type fl) tags in
                       set_ids fl (match filter_ids fl with
                                   | Some ids => filter (λ id, id ∈ subjectIDs) ids
                                   | None => subjectIDs
                                   end)
                   | None => fl
                   end), w')
    ∧ store w' = store w ∧ redis w' = redis w ∧ clock w' = clock w
    ∧ trace w' = trace w ++ tag_queries (store w) fl.
Proof.
  unfold resolve_tags, tagged_subjects, tag_queries.
  destruct (filter_tags fl) as [tags|].
  - run. destruct (filter_ids fl); run; eexists; (split; [reflexivity|]); world;
      by rewrite <- !app_assoc.
  - eexists. split; [reflexivity|]. by rewrite app_nil_r.
Qed.

(** The run of [fetchSubjectIDsByFilter] on a miss, up to its count query. *)
Lemma fetch_page_lookups (fl : SubjectFilter) (sort : SubjectSort) (page : Z)
    (w : World) (l : list TrendingItem) :
  let key := getSubjectListCacheKey fl sort page in
  redis w !! key = None →
  (sort = Trends →
   cached_as w (getTrendingSubjectKey (filter_type fl) TrendingPeriod_Month) (PTrending l)) →
  let fl' := filter_after (store w) fl sort l in
  ∃ w2, store w2 = store w ∧ redis w2 = redis w ∧ clock w2 = clock w
    ∧ trace w2 = trace w ++ page_lookups (store w) fl sort page
    ∧ fetchSubjectIDsByFilter fl sort page w
      = (r ← query_page key fl' sort page; mret (r, fl')) w2.
Proof.
  intros key Hmiss Htrend fl'.
  unfold fetchSubjectIDsByFilter. fold key in Hmiss |- *.
  erewrite bind_run; [|unfold redis_get; rewrite Hmiss; reflexivity].
  cbn [fmap option_fmap option_map].
  erewrite bind_run;
    [|apply (resolve_trending_world fl sort (emit (RedisGet key) w) l Htrend)].
  set (fl1 := if decide (sort = Trends) then _ else _).
  set (w1 := if decide (sort = Trends) then _ else _).
  destruct (resolve_tags_world fl1 w1) as (w2 & Htags & Hs2 & Hr2 & Hc2 & Ht2).
  assert (Hw1 : store w1 = store w ∧ redis w1 = redis w ∧ clock w1 = clock w
                ∧ trace w1 = trace w ++ RedisGet key
                    :: (if decide (sort = Trends)
                        then [RedisGet (getTrendingSubjectKey (filter_type fl)
                                          TrendingPeriod_Month)]
                        else [])).
  { unfold w1. destruct (decide (sort = Trends)); world;
      by rewrite <- ?app_assoc. }
  destruct Hw1 as (Hs1 & Hr1 & Hc1 & Ht1).
  erewrite bind_run; [|exact Htags].
  set (fl2 := match filter_tags fl1 with Some _ => _ | None => _ end).
  assert (Hfl : fl2 = fl').
  { unfold fl2, fl', filter_after, ids_after, fl1. rewrite Hs1. clear.
    destruct fl as [ty nsfw cat series year month tags ids]. unfold set_ids. cbn.
    destruct (decide (sort = Trends)); cbn; destruct tags; cbn; try done;
      destruct ids; done. }
  rewrite Hfl. exists w2. rewrite Hs2, Hr2, Hc2, Ht2, Hs1, Hr1, Hc1, Ht1.
  repeat split; try done.
  unfold page_lookups. fold key. rewrite <- app_assoc. cbn [app]. f_equal. f_equal.
  f_equal. unfold tag_queries, fl1. by destruct (decide (sort = Trends)).
Qed.

(** X6.  A filter that matches no row yields the empty page with total 0
    straight after the count query: the paginated query is not issued, and
    the empty page is not written to the cache, so the cache is left as it
    was. *)
Theorem zero_count_short_circuit (fl : SubjectFilter) (sort : SubjectSort) (page : Z)
    (w : World) (l : list TrendingItem) :
  redis w !! getSubjectListCacheKey fl sort page = None →
  (sort = Trends →
   cached_as w (getTrendingSubjectKey (filter_type fl) TrendingPeriod_Month) (PTrending l)) →
  let fl' := filter_after (store w) fl sort l in
  matching (conditions_of fl' sort) (store w) = [] →
  ∃ w', fetchSubjectIDsByFilter fl sort page w = (Return (empty_page, fl'), w')
    ∧ redis w' = redis w
    ∧ trace w' = trace w ++ page_lookups (store w) fl sort page
                 ++ [DbSelect (CountSubjects (conditions_of fl' sort))].
Proof.
  intros Hmiss Htrend fl' Hnone.
  destruct (fetch_page_lookups fl sort page w l Hmiss Htrend)
    as (w2 & Hs & Hr & _ & Ht & ->).
  fold fl'. unfold query_page. run. rewrite Hs, Hnone. cbn [length Z.of_nat Z.eqb]. run.
  eexists. split; [reflexivity|]. world. rewrite Ht. by rewrite <- app_assoc.
Qed.

Global Instance before_find_in_set_trans (ids : list Z) :
  Transitive (before (FindInSet ids)).
Proof. intros a b c. unfold before. lia. Qed.

Global Instance before_find_in_set_total (ids : list Z) : Total (before (FindInSet ids)).
Proof. intros a b. unfold before. lia. Qed.

Lemma page_of_rank_sorted (s : Store) (conditions : list Cond) (ids : list Z) (page : Z) :
  StronglySorted (rank_order ids) (page_of s conditions (FindInSet ids) page).
Proof.
  unfold page_of.
  set (sorted := merge_sort _ _).
  assert (Hs : StronglySorted (before (FindInSet ids)) sorted)
    by (apply StronglySorted_merge_sort; apply _).
  apply (StronglySorted_fmap _ (before (FindInSet ids))); [done|].
  rewrite <- (take_drop (Z.to_nat ((page - 1) * 24)) sorted) in Hs.
  apply StronglySorted_app_1_r in Hs.
  rewrite <- (take_drop 24 (drop _ sorted)) in Hs.
  by apply StronglySorted_app_1_l in Hs.
Qed.

Lemma page_of_elem (s : Store) (conditions : list Cond) (order : Order) (page : Z)
    (x : Z) :
  x ∈ page_of s conditions order page →
  ∃ d, x = subject_id d.1 ∧ d ∈ subjects_join_fields s
       ∧ ∀ c, c ∈ conditions → holds c d = true.
Proof.
  unfold page_of. intros (d & -> & Hd)%list_elem_of_fmap.
  apply subseteq_take, subseteq_drop in Hd. rewrite merge_sort_Permutation in Hd.
  unfold matching in Hd. apply list_elem_of_filter in Hd as [Hall Hd].
  exists d. split; [done|]. split; [done|].
  intros c Hc. rewrite forallb_forall in Hall. apply Hall. by apply list_elem_of_In.
Qed.

(** X7.  For the trending sort the ids of the page are ids of the filter's
    id list as the call leaves it (the trending ids, narrowed by the tags),
    and they come in the order of their positions in that list: the rank
    order is kept, no column order is applied. *)
Theorem trends_page_follows_rank (fl : SubjectFilter) (page : Z) (w : World)
    (l : list TrendingItem) :
  redis w !! getSubjectListCacheKey fl Trends page = None →
  cached_as w (getTrendingSubjectKey (filter_type fl) TrendingPeriod_Month) (PTrending l) →
  ∃ r fl' w' ids,
    fetchSubjectIDsByFilter fl Trends page w = (Return (r, fl'), w')
    ∧ filter_ids fl' = Some ids
    ∧ (∀ x, x ∈ ids → x ∈ item_id <$> l)
    ∧ (∀ x, x ∈ paged_data r → x ∈ ids)
    ∧ StronglySorted (rank_order ids) (paged_data r).
Proof.
  intros Hmiss Htrend.
  destruct (fetch_page_lookups fl Trends page w l Hmiss (λ _, Htrend))
    as (w2 & Hs & Hr & _ & Ht & ->).
  set (fl' := filter_after (store w) fl Trends l).
  assert (∃ ids, filter_ids fl' = Some ids ∧ ∀ x, x ∈ ids → x ∈ item_id <$> l)
    as (ids & Hids & Hsub).
  { unfold fl', filter_after, ids_after. rewrite decide_True by done.
    destruct (filter_tags fl) as [tags|]; cbn; eexists; (split; [reflexivity|]).
    - intros x Hx. by apply list_elem_of_filter in Hx as [_ ?].
    - done. }
  unfold query_page. run. rewrite Hs.
  destruct (_ =? 0) eqn:Hc.
  { do 4 eexists. split; [reflexivity|]. split; [exact Hids|]. split; [exact Hsub|].
    cbn. split; [by intros x ?%elem_of_nil|constructor]. }
  rewrite Hids. run. rewrite ?Hs.
  change ((λ d : SubjectRow * SubjectFieldsRow, subject_id d.1) <$> _)
    with (page_of (store w) (conditions_of fl' Trends) (FindInSet ids) page).
  set (data := page_of _ _ _ _).
  assert (Hin : ∀ x, x ∈ data → x ∈ ids).
  { intros x (d & -> & _ & Hall)%page_of_elem.
    assert (Hc' : IdIn ids ∈ conditions_of fl' Trends).
    { unfold conditions_of, filter_conditions. rewrite Hids.
      rewrite !elem_of_app. left. do 6 right. apply list_elem_of_here. }
    apply Hall in Hc'. cbn in Hc'. by apply bool_decide_eq_true in Hc'. }
  assert (Hsorted : StronglySorted (rank_order ids) data) by apply page_of_rank_sorted.
  destruct (page =? 1); run; do 4 eexists;
    (split; [reflexivity|]); (split; [exact Hids|]); (split; [exact Hsub|]); by split.
Qed.

(** ** The batch lookup in general *)

Lemma sort_hit_missing (allowNsfw : bool) (f : Z → option Payload) (xs : list Z)
    (acc : gmap Z ISlimSubject * list Z) :
  (foldl (λ acc id, sort_hit allowNsfw (f id) acc id) acc xs).2
  = acc.2 ++ filter (λ id, f id = None) xs.
Proof.
  revert acc. induction xs as [|x xs IH]; intros acc; cbn [foldl].
  - by rewrite app_nil_r.
  - rewrite IH. unfold sort_hit. destruct (f x) as [p|] eqn:E.
    + rewrite filter_cons_False by (rewrite E; done).
      destruct p; try done. by destruct (negb allowNsfw && _).
    + rewrite filter_cons_True by done. cbn. by rewrite <- app_assoc.
Qed.

Lemma sort_hit_step_other (allowNsfw : bool) (cached : option Payload)
    (acc : gmap Z ISlimSubject * list Z) (x k : Z) :
  x ≠ k → (sort_hit allowNsfw cached acc x).1 !! k = acc.1 !! k.
Proof.
  intros Hne. unfold sort_hit. destruct cached as [[]|]; try done.
  destruct (negb allowNsfw && _); [done|]. cbn. by rewrite lookup_insert_ne.
Qed.

Lemma sort_hit_other (allowNsfw : bool) (f : Z → option Payload) (xs : list Z)
    (acc : gmap Z ISlimSubject * list Z) (k : Z) :
  k ∉ xs →
  (foldl (λ acc id, sort_hit allowNsfw (f id) acc id) acc xs).1 !! k = acc.1 !! k.
Proof.
  revert acc. induction xs as [|x xs IH]; intros acc Hk; cbn [foldl]; [done|].
  apply not_elem_of_cons in Hk as [Hne Hk].
  rewrite IH by done. by apply sort_hit_step_other.
Qed.

Lemma sort_hit_lookup (allowNsfw : bool) (f : Z → option Payload) (xs : list Z)
    (acc : gmap Z ISlimSubject * list Z) (k : Z) (slim : ISlimSubject) :
  k ∈ xs → f k = Some (PSlimSubject slim) →
  (foldl (λ acc id, sort_hit allowNsfw (f id) acc id) acc xs).1 !! k
  = if negb allowNsfw && slimSubject_nsfw slim then acc.1 !! k else Some slim.
Proof.
  intros Hk Hf. revert acc Hk.
  induction xs as [|x xs IH]; intros acc Hk; [by apply elem_of_nil in Hk|].
  cbn [foldl]. destruct (decide (x = k)) as [->|Hne].
  - assert (Hstep : (sort_hit allowNsfw (f k) acc k).1 !! k
                    = if negb allowNsfw && slimSubject_nsfw slim then acc.1 !! k
                      else Some slim).
    { unfold sort_hit. rewrite Hf. destruct (negb allowNsfw && _); [done|].
      cbn. apply lookup_insert_eq. }
    destruct (decide (k ∈ xs)) as [Hin|Hout].
    + rewrite IH by done. rewrite Hstep. by destruct (negb allowNsfw && _).
    + by rewrite sort_hit_other.
  - apply elem_of_cons in Hk as [?|Hk]; [done|].
    rewrite IH by done. by rewrite sort_hit_step_other.
Qed.

Lemma entries_lookup {A} (xs : list A) (idx : nat) (x : A) :
  (idx, x) ∈ entries xs → xs !! idx = Some x.
Proof.
  unfold entries. intros (i & y & Heq & Hy)%elem_of_lookup_imap. by simplify_eq.
Qed.

Lemma foldl_entries {A S} (step : S → A → S) (s : S) (xs : list A) :
  foldl (λ acc '(_, x), step acc x) s (entries xs) = foldl step s xs.
Proof.
  rewrite <- (entries_values xs) at 2. rewrite foldl_fmap.
  generalize (entries xs). intros es. revert s.
  induction es as [|[idx x] es IH]; intros s; [done|]. cbn. apply IH.
Qed.

(** X8.  Whatever part of the requested slim subjects is cached, the batch
    lookup reads the cache once, for the de-duplicated ids; it queries the
    Store only if some id is missing, and then once, for exactly the ids the
    cache did not hold, each once and in input order; and an id found in
    the cache is answered with the cached record if the request may see it
    and is absent from the map otherwise. *)
Theorem batch_queries_exactly_missing (ids : list Z) (allowNsfw : bool) (w : World) :
  ids ≠ [] →
  (∀ id e, id ∈ ids → redis w !! getSubjectSlimCacheKey id = Some e →
     ∃ slim, payload e = PSlimSubject slim) →
  let missing := missing_ids w ids in
  ∃ result w' writes,
    fetchSlimSubjectsByIDs ids allowNsfw w = (Return result, w')
    ∧ trace w' = trace w ++ RedisMGet (getSubjectSlimCacheKey <$> uniq ids)
                   :: (if decide (missing = []) then []
                       else DbSelect (SelectSubjectsByIDs missing) :: writes)
    ∧ Forall is_cache_write writes
    ∧ NoDup missing
    ∧ (∀ id, id ∈ missing ↔ id ∈ ids ∧ redis w !! getSubjectSlimCacheKey id = None)
    ∧ (∀ id slim, id ∈ ids →
         cached_as w (getSubjectSlimCacheKey id) (PSlimSubject slim) →
         result !! id = if negb allowNsfw && slimSubject_nsfw slim then None
                        else Some slim).
Proof.
  intros Hne Htyped missing. unfold fetchSlimSubjectsByIDs.
  assert (Hlen0 : (length ids =? 0)%nat = false) by (by destruct ids).
  rewrite Hlen0. cbn zeta. erewrite bind_run; [|reflexivity].
  set (f := λ id, payload <$> redis w !! getSubjectSlimCacheKey id).
  set (cached := (λ k, payload <$> redis w !! k) <$> (getSubjectSlimCacheKey <$> uniq ids)).
  set (w1 := emit _ w).
  assert (Hat : ∀ idx id, (idx, id) ∈ entries (uniq ids) → at_index cached idx = f id).
  { intros idx id Hin%entries_lookup. unfold at_index, cached.
    by rewrite <- list_fmap_compose, list_lookup_fmap, Hin. }
  assert (Hf : ∀ id, id ∈ uniq ids → f id = None ∨ ∃ slim, f id = Some (PSlimSubject slim)).
  { intros id Hid. rewrite uniq_elem in Hid. unfold f.
    destruct (redis w !! getSubjectSlimCacheKey id) as [e|] eqn:E; [|by left].
    right. destruct (Htyped id e Hid E) as [slim Hs]. exists slim. cbn. by rewrite Hs. }
  erewrite bind_run; cycle 1.
  { apply (for_of_foldl _ _
             (λ acc '(_, id), sort_hit allowNsfw (f id) acc id) (λ _ w, w)).
    intros [result0 missing0] [idx id] w0 Hin. rewrite (Hat _ _ Hin).
    assert (Hid : id ∈ uniq ids).
    { apply entries_lookup in Hin. by eapply list_elem_of_lookup_2. }
    unfold sort_hit. destruct (Hf id Hid) as [->|[slim ->]]; [done|].
    run. by destruct (negb allowNsfw && _). }
  replace (foldl (λ w0 _, w0) w1 (entries (uniq ids))) with w1
    by (generalize (entries (uniq ids)); intros es; induction es; done).
  rewrite (foldl_entries (λ acc id, sort_hit allowNsfw (f id) acc id)).
  set (folded := foldl _ _ (uniq ids)).
  assert (Hmissing : folded.2 = missing).
  { unfold folded. rewrite sort_hit_missing. cbn [snd app]. unfold missing, missing_ids.
    apply list_filter_iff. intros id. unfold f.
    by destruct (redis w !! getSubjectSlimCacheKey id). }
  assert (Hhits : ∀ id slim, id ∈ ids →
            cached_as w (getSubjectSlimCacheKey id) (PSlimSubject slim) →
            folded.1 !! id = if negb allowNsfw && slimSubject_nsfw slim then None
                             else Some slim).
  { intros id slim Hid Hc. unfold folded.
    rewrite (sort_hit_lookup _ _ _ _ id slim); [done|by apply uniq_elem|exact Hc]. }
  assert (Hmem : ∀ id, id ∈ missing
                       ↔ id ∈ ids ∧ redis w !! getSubjectSlimCacheKey id = None).
  { intros id. unfold missing, missing_ids. rewrite list_elem_of_filter, uniq_elem. tauto. }
  assert (Hnodup : NoDup missing) by (apply NoDup_filter, uniq_NoDup).
  destruct folded as [result0 missing0]. cbn [fst snd] in *. subst missing0.
  destruct (decide (missing = [])) as [Hnil|Hsome].
  - rewrite Hnil. cbn [length Nat.ltb Nat.leb]. exists result0, w1, [].
    split; [reflexivity|]. split; [done|]. split; [constructor|]. split; [by rewrite <- Hnil|].
    split; [by rewrite <- Hnil|done].
  - assert (Hlen : (0 <? length missing)%nat = true)
      by (destruct missing; [done|reflexivity]).
    rewrite Hlen. erewrite bind_run; [|reflexivity].
    change (store (emit (RedisMGet _) w)) with (store w).
    set (data := filter (λ d, subject_id d.1 ∈ missing ∧ subject_ban d.1 ≠ 1)
                   (subjects_join_fields (store w))).
    set (hidden := λ d : SubjectRow * SubjectFieldsRow,
                     negb allowNsfw && slimSubject_nsfw (toSlimSubject d.1 d.2)).
    erewrite (for_of_foldl data _
      (keep (λ d, subject_id d.1) hidden (λ d, toSlimSubject d.1 d.2))
      (write_back (λ d, getSubjectSlimCacheKey (subject_id d.1))
                  (λ d, PSlimSubject (toSlimSubject d.1 d.2)) ONE_MONTH)); cycle 1.
    { intros result d w0 _. unfold keep, hidden. run.
      by destruct (negb allowNsfw && slimSubject_nsfw _). }
    destruct (write_back_trace (λ d, getSubjectSlimCacheKey (subject_id d.1))
                (λ d, PSlimSubject (toSlimSubject d.1 d.2)) ONE_MONTH data
                (emit (DbSelect (SelectSubjectsByIDs missing)) w1))
      as (_ & writes & Htr & Hw).
    do 2 eexists. exists writes. split; [reflexivity|]. rewrite Htr.
    split; [unfold w1; cbn; by rewrite <- !app_assoc|].
    split; [done|]. split; [done|]. split; [done|].
    intros id slim Hid Hc. rewrite keep_lookup, filter_none_in; [by apply Hhits|].
    intros d Hd [Hk _]. unfold data in Hd. apply list_elem_of_filter in Hd as [[Hm _] _].
    rewrite Hk in Hm. apply Hmem in Hm as [_ Hm]. unfold cached_as in Hc.
    by rewrite Hm in Hc.
Qed.

(** ** Runs of the trending job *)

Lemma trending_items_same (w w' : World) (ty d : Z) :
  store w' = store w → clock w' = clock w →
  trending_items w' ty d = trending_items w ty d.
Proof. unfold trending_items. by intros -> ->. Qed.

Lemma string_length_app (a b : string) :
  String.length (a +:+ b) = (String.length a + String.length b)%nat.
Proof. induction a as [|c a IH]; simpl; [done|]. by f_equal. Qed.

Lemma string_app_inv_tail (a b c : string) : a +:+ c = b +:+ c → a = b.
Proof.
  revert b. induction a as [|x a IH]; intros [|y b] H.
  - done.
  - apply (f_equal String.length) in H. rewrite !string_length_app in H. cbn in H. lia.
  - apply (f_equal String.length) in H. rewrite !string_length_app in H. cbn in H. lia.
  - cbn in H. injection H as -> H. f_equal. by apply IH.
Qed.

(** Distinct subject types have distinct trending keys. *)
Lemma getSubjectTrendingKey_inj (ty1 ty2 : Z) (p : string) :
  getSubjectTrendingKey ty1 p = getSubjectTrendingKey ty2 p → ty1 = ty2.
Proof.
  unfold getSubjectTrendingKey. intros H.
  apply (inj (String.app "trending:subjects:")) in H.
  apply string_app_inv_tail in H. by apply (inj pretty) in H.
Qed.

Lemma lockKey_ne_any (k1 : string) (ty : Z) (p : string) :
  lockKey_of k1 ≠ getSubjectTrendingKey ty p.
Proof. unfold lockKey_of, getSubjectTrendingKey. cbn. discriminate. Qed.

(** X9.  A recomputation that succeeds releases its lock: the same call
    made again finds no lock, runs the aggregate query a second time and,
    the clock standing still between the two, writes the same list, so that
    two runs in a row issue two Store queries. *)
Theorem lock_released_after_success (ty : Z) (p : string) (w : World) (d : Z) :
  let tk := getSubjectTrendingKey ty p in
  let lk := lockKey_of tk in
  redis w !! lk = None →
  truthy_number (getTrendingPeriodDuration p) = Some d →
  ∃ w1 w2, updateTrendingSubjects ty p false w = (Return tt, w1)
    ∧ redis w1 !! lk = None
    ∧ updateTrendingSubjects ty p false w1 = (Return tt, w2)
    ∧ redis w2 !! lk = None
    ∧ cached_as w2 tk (PTrending (trending_items w ty d))
    ∧ queries (trace w2)
      = queries (trace w)
        ++ [SelectTrending ty (doingDateline_of ty) (clock w - d);
            SelectTrending ty (doingDateline_of ty) (clock w - d)].
Proof.
  intros tk lk Hfree Hd.
  pose proof (update_recomputes ty p false w d (or_intror Hfree) Hd) as H1.
  cbn zeta in H1. fold tk lk in H1.
  set (w1 := {| store := store w |}) in H1.
  assert (Hfree1 : redis w1 !! lk = None) by (cbn; apply lookup_delete_eq).
  pose proof (update_recomputes ty p false w1 d (or_intror Hfree1) Hd) as H2.
  cbn zeta in H2. fold tk lk in H2.
  rewrite (trending_items_same w w1) in H2 by done.
  eexists w1, _. split; [exact H1|]. split; [exact Hfree1|]. split; [exact H2|].
  cbn [redis trace]. split; [apply lookup_delete_eq|]. split.
  - unfold cached_as. cbn [redis].
    rewrite lookup_delete_ne by apply lockKey_ne. by rewrite lookup_insert_eq.
  - unfold w1. cbn [trace clock app]. unfold queries. rewrite !omap_app.
    cbn. by rewrite <- app_assoc.
Qed.

(** The loop of [trendingSubjects], entered in world [w] of a run that
    started in [w0]. *)
Lemma trending_job_loop (types : list Z) (w0 w : World) (d : Z) :
  truthy_number (getTrendingPeriodDuration TrendingPeriod_Month) = Some d →
  store w = store w0 → clock w = clock w0 →
  (∀ ty, ty ∈ types →
     redis w !! lockKey_of (getSubjectTrendingKey ty TrendingPeriod_Month) = None) →
  ∃ w', for_of types (λ _ subjectType,
                        logger Info;;
                        updateTrendingSubjects subjectType TrendingPeriod_Month false)
          tt w = (Return tt, w')
    ∧ store w' = store w0 ∧ clock w' = clock w0
    ∧ queries (trace w')
      = queries (trace w)
        ++ ((λ ty, SelectTrending ty (doingDateline_of ty) (clock w0 - d)) <$> types)
    ∧ (∀ ty, redis w !! lockKey_of (getSubjectTrendingKey ty TrendingPeriod_Month) = None →
         redis w' !! lockKey_of (getSubjectTrendingKey ty TrendingPeriod_Month) = None)
    ∧ (∀ ty, ty ∈ types ∨ cached_as w (getSubjectTrendingKey ty TrendingPeriod_Month)
                             (PTrending (trending_items w0 ty d)) →
         cached_as w' (getSubjectTrendingKey ty TrendingPeriod_Month)
           (PTrending (trending_items w0 ty d))).
Proof.
  intros Hd. revert w. induction types as [|ty types IH]; intros w Hs Hc Hfree.
  { exists w. cbn. rewrite app_nil_r. repeat split; try done.
    intros ty [?%elem_of_nil|?]; done. }
  set (p := TrendingPeriod_Month) in *.
  set (tk := getSubjectTrendingKey ty p). set (lk := lockKey_of tk).
  assert (Hfree0 : redis (emit (Logged Info) w) !! lk = None)
    by (apply Hfree; left).
  pose proof (update_recomputes ty p false _ d (or_intror Hfree0) Hd) as Hrun.
  cbn zeta in Hrun. fold tk lk in Hrun.
  rewrite (trending_items_same w0 (emit (Logged Info) w)) in Hrun by done.
  set (w1 := {| store := store (emit (Logged Info) w) |}) in Hrun.
  assert (Hlook : ∀ k, redis w1 !! k
                       = if decide (k = lk) then None
                         else if decide (k = tk) then
                           Some {| payload := PTrending (trending_items w0 ty d);
                                   ttl := None |}
                         else redis w !! k).
  { intros k. unfold w1. cbn [redis emit].
    destruct (decide (k = lk)) as [->|Hlk]; [apply lookup_delete_eq|].
    rewrite lookup_delete_ne by done.
    destruct (decide (k = tk)) as [->|Htk]; [apply lookup_insert_eq|].
    rewrite !lookup_insert_ne by congruence. done. }
  assert (Hfree1 : ∀ ty', redis w !! lockKey_of (getSubjectTrendingKey ty' p) = None →
                          redis w1 !! lockKey_of (getSubjectTrendingKey ty' p) = None).
  { intros ty' Hty'. rewrite Hlook. destruct (decide (_ = lk)); [done|].
    rewrite decide_False by apply lockKey_ne_any. done. }
  destruct (IH w1) as (w' & Hloop & Hs' & Hc' & Hq' & Hfree' & Hkeep').
  { unfold w1. cbn. exact Hs. }
  { unfold w1. cbn. exact Hc. }
  { intros ty' Hty'. apply Hfree1, Hfree. by right. }
  exists w'. split.
  { cbn [for_of]. erewrite bind_run; [exact Hloop|].
    erewrite bind_run; [exact Hrun|reflexivity]. }
  split; [done|]. split; [done|]. split.
  { rewrite Hq'. unfold w1. cbn [trace emit clock app]. unfold queries.
    rewrite !omap_app. cbn. rewrite Hc. by rewrite <- !app_assoc. }
  split; [by intros ty' Hty'; apply Hfree', Hfree1|].
  intros ty' Hty'. apply Hkeep'.
  destruct (decide (ty' = ty)) as [->|Hne].
  { right. unfold cached_as. rewrite Hlook.
    rewrite decide_False by (symmetry; apply lockKey_ne).
    by rewrite decide_True. }
  destruct Hty' as [Hin|Hcached].
  { apply elem_of_cons in Hin as [?|?]; [done|by left]. }
  right. unfold cached_as. rewrite Hlook.
  rewrite decide_False by (intros H; symmetry in H; by apply lockKey_ne_any in H).
  rewrite decide_False; [exact Hcached|].
  intros H. by apply getSubjectTrendingKey_inj in H.
Qed.

(** X10.  With no lock held for any of the subject types and the month's
    duration known, the scheduled job runs exactly one aggregate query per
    subject type, in the order of the types, and when it is done each
    type's trending key holds the list computed for that type, taken at the
    clock of the world the job started in, and none of the locks is held. *)
Theorem trending_job_refreshes_every_type (types : list Z) (w : World) (d : Z) :
  truthy_number (getTrendingPeriodDuration TrendingPeriod_Month) = Some d →
  (∀ ty, ty ∈ types →
     redis w !! lockKey_of (getSubjectTrendingKey ty TrendingPeriod_Month) = None) →
  ∃ w', trendingSubjects types w = (Return tt, w')
    ∧ queries (trace w')
      = queries (trace w)
        ++ ((λ ty, SelectTrending ty (doingDateline_of ty) (clock w - d)) <$> types)
    ∧ ∀ ty, ty ∈ types →
        cached_as w' (getSubjectTrendingKey ty TrendingPeriod_Month)
          (PTrending (trending_items w ty d))
        ∧ redis w' !! lockKey_of (getSubjectTrendingKey ty TrendingPeriod_Month) = None.
Proof.
  intros Hd Hfree.
  destruct (trending_job_loop types w (emit (Logged Info) w) d Hd eq_refl eq_refl Hfree)
    as (w' & Hloop & _ & _ & Hq & Hfree' & Hkeep).
  exists w'. split.
  { unfold trendingSubjects. erewrite bind_run; [exact Hloop|reflexivity]. }
  split.
  { rewrite Hq. cbn [trace emit]. unfold queries. rewrite omap_app. cbn.
    by rewrite app_nil_r. }
  intros ty Hty. split; [apply Hkeep; by left|]. by apply Hfree', Hfree.
Qed.

(** ** Bounds of a read *)

(** X11.  Whatever the offset, a read of the trending list with a
    non-negative limit returns a contiguous run of the cached list that is
    no longer than the limit. *)
Theorem trending_read_bounded (ty : Z) (p : string) (limit offset : Z) (w : World)
    (l : list TrendingItem) :
  cached_as w (getSubjectTrendingKey ty p) (PTrending l) →
  0 ≤ limit →
  ∃ items before after,
    getTrendingSubjects ty p limit offset w
    = (Return items, emit (RedisGet (getSubjectTrendingKey ty p)) w)
    ∧ l = before ++ items ++ after
    ∧ Z.of_nat (length items) ≤ limit.
Proof.
  intros Hc Hl. unfold getTrendingSubjects. run. unfold cached_as in Hc. rewrite Hc. run.
  unfold slice.
  set (k := Z.to_nat (if offset <? 0 then _ else _)).
  set (n := Z.to_nat (_ - _)).
  exists (take n (drop k l)), (take k l), (drop n (drop k l)).
  split; [done|]. split; [by rewrite !take_drop|].
  rewrite length_take. subst n k.
  destruct (offset <? 0) eqn:E1, (offset + limit <? 0) eqn:E2; lia.
Qed.

(** ** The two shapes of a subject *)

(** X21.  The slim and the full shape of a subject are cached under their
    own keys and neither lookup fills the other's: with neither cached, a
    full lookup followed by a slim lookup of the same subject queries the
    Store twice, and both shapes are cached afterwards. *)
Theorem subject_shapes_cached_apart (id : Z) (allowNsfw : bool) (w : World)
    (d : SubjectRow * SubjectFieldsRow) (rest : list (SubjectRow * SubjectFieldsRow)) :
  getSubjectItemCacheKey id ≠ getSubjectSlimCacheKey id →
  redis w !! getSubjectItemCacheKey id = None →
  redis w !! getSubjectSlimCacheKey id = None →
  filter (λ d, subject_id d.1 = id ∧ subject_ban d.1 ≠ 1)
    (subjects_join_fields (store w)) = d :: rest →
  let item := toSubject d.1 d.2 in
  let slim := toSlimSubject d.1 d.2 in
  ∃ w1 w2,
    fetchSubjectByID id allowNsfw w
    = (Return (if negb allowNsfw && subjectItem_nsfw item then None else Some item), w1)
    ∧ fetchSlimSubjectByID id allowNsfw w1
      = (Return (if negb allowNsfw && slimSubject_nsfw slim then None else Some slim), w2)
    ∧ queries (trace w2)
      = queries (trace w) ++ [SelectSubjectByID id; SelectSubjectByID id]
    ∧ cached_as w2 (getSubjectItemCacheKey id) (PSubject item)
    ∧ cached_as w2 (getSubjectSlimCacheKey id) (PSlimSubject slim).
Proof.
  intros Hne Hitem Hslim Hrow item slim.
  unfold fetchSubjectByID. run. rewrite Hitem. run. rewrite Hrow. cbn [head].
  fold item. run. eexists. eexists. split.
  { destruct (negb allowNsfw && subjectItem_nsfw item); reflexivity. }
  unfold fetchSlimSubjectByID. run. rewrite lookup_insert_ne by done.
  rewrite Hslim. run. rewrite Hrow. cbn [head]. fold slim. run. split.
  { destruct (negb allowNsfw && slimSubject_nsfw slim); reflexivity. }
  world. split; [|split].
  - unfold queries. rewrite !omap_app. cbn. by rewrite <- !app_assoc.
  - unfold cached_as. world. rewrite lookup_insert_ne by done.
    by rewrite lookup_insert_eq.
  - unfold cached_as. world. by rewrite lookup_insert_eq.
Qed.

(** ** Topics *)

Lemma write_back_events {R} (key : R → string) (value : R → Payload) (seconds : Z)
    (data : list R) (w : World) :
  trace (foldl (λ w d, write_back key value seconds d w) w data)
  = trace w ++ ((λ d, RedisSet (key d) (value d) (Some seconds)) <$> data).
Proof.
  revert w. induction data as [|d data IH]; intros w; cbn [foldl fmap list_fmap].
  - by rewrite app_nil_r.
  - rewrite IH. unfold write_back. cbn [trace emit with_redis]. by rewrite <- app_assoc.
Qed.

(** The last write to a key wins. *)
Lemma write_back_redis {R} (key : R → string) (value : R → Payload) (seconds : Z)
    (data : list R) (w : World) (k : string) :
  redis (foldl (λ w d, write_back key value seconds d w) w data) !! k
  = match last (filter (λ d, key d = k) data) with
    | Some d => Some {| payload := value d; ttl := Some seconds |}
    | None => redis w !! k
    end.
Proof.
  induction data as [|d data IH] using rev_ind; [done|].
  rewrite foldl_snoc, filter_app. unfold write_back at 1. cbn [redis emit with_redis].
  destruct (decide (key d = k)) as [Hk|Hk].
  - rewrite filter_cons_True, filter_nil, last_snoc by done.
    rewrite Hk. apply lookup_insert_eq.
  - rewrite filter_cons_False, filter_nil, app_nil_r by done.
    by rewrite lookup_insert_ne.
Qed.

Lemma foldl_insert_lookup {T} (g : Z → T) (xs : list Z) (m : gmap Z T) (k : Z) :
  foldl (λ m id, <[id := g id]> m) m xs !! k
  = if decide (k ∈ xs) then Some (g k) else m !! k.
Proof.
  induction xs as [|x xs IH] using rev_ind.
  - cbn. by rewrite decide_False by apply not_elem_of_nil.
  - rewrite foldl_snoc. destruct (decide (x = k)) as [->|Hne].
    + rewrite lookup_insert_eq. rewrite decide_True; [done|].
      apply elem_of_app. right. left.
    + rewrite lookup_insert_ne, IH by done.
      destruct (decide (k ∈ xs)) as [Hin|Hout].
      * rewrite decide_True; [done|]. apply elem_of_app. by left.
      * rewrite decide_False; [done|].
        rewrite elem_of_app, list_elem_of_singleton. intros [?|?]; [done|congruence].
Qed.

(** The batch lookup of subject topics when none of the ids is cached. *)
Lemma topics_on_miss (ids : list Z) (w : World) :
  ids ≠ [] →
  (∀ x, x ∈ ids → redis w !! getSubjectTopicCacheKey x = None) →
  fetchSubjectTopicsByIDs ids w
  = (Return (foldl (keep topic_id (λ _, false) toSubjectTopic) ∅
               (filter (λ d, topic_id d ∈ ids) (chiiSubjectTopics (store w)))),
     foldl (λ w d, write_back (λ d, getSubjectTopicCacheKey (topic_id d))
                     (λ d, PTopic (toSubjectTopic d)) 86400 d w)
       (emit (DbSelect (SelectTopicsByIDs ids))
          (emit (RedisMGet (getSubjectTopicCacheKey <$> ids)) w))
       (filter (λ d, topic_id d ∈ ids) (chiiSubjectTopics (store w)))).
Proof.
  intros Hne Hmiss. unfold fetchSubjectTopicsByIDs.
  erewrite bind_run; [|reflexivity].
  set (cached := (λ k, payload <$> redis w !! k) <$> (getSubjectTopicCacheKey <$> ids)).
  set (w1 := emit _ w).
  assert (Hall : Forall (λ c, c = None) cached).
  { unfold cached. rewrite <- list_fmap_compose. apply Forall_fmap, Forall_forall.
    intros x Hx. cbn. by rewrite Hmiss. }
  erewrite bind_run; cycle 1.
  { apply (for_of_foldl _ _
             (λ '(result, missing) '(_, id), (result, missing ++ [id])) (λ _ w, w)).
    intros [result missing] [idx id] w0 _. by rewrite at_index_all_missing. }
  rewrite collect_missing, entries_values. cbn [app].
  replace (foldl (λ w0 _, w0) w1 (entries ids)) with w1
    by (generalize (entries ids); intros es; induction es; done).
  assert (Hlen : (0 <? length ids)%nat = true) by (by destruct ids).
  rewrite Hlen. erewrite bind_run; [|reflexivity].
  change (store w1) with (store w).
  apply for_of_foldl. intros result d w0 _. unfold keep, write_back. by run.
Qed.

Lemma topics_result (data : list TopicRow) (k : Z) :
  foldl (keep topic_id (λ _, false) toSubjectTopic) ∅ data !! k
  = toSubjectTopic <$> last (filter (λ d, topic_id d = k) data).
Proof.
  rewrite keep_lookup.
  rewrite (list_filter_iff _ (λ d, topic_id d = k)) by (intros d; tauto).
  by destruct (last _).
Qed.

(** X22.  The batch lookup of subject topics does not de-duplicate: with
    none of the ids cached it asks the cache and then the Store for the ids
    as they were passed, repeats included, writes every row returned to the
    cache for one day, in the order of the rows, and binds each id to its
    last row. *)
Theorem topics_batch_on_miss (ids : list Z) (w : World) :
  ids ≠ [] →
  (∀ x, x ∈ ids → redis w !! getSubjectTopicCacheKey x = None) →
  let data := filter (λ d, topic_id d ∈ ids) (chiiSubjectTopics (store w)) in
  ∃ result w',
    fetchSubjectTopicsByIDs ids w = (Return result, w')
    ∧ trace w'
      = trace w ++ RedisMGet (getSubjectTopicCacheKey <$> ids)
          :: DbSelect (SelectTopicsByIDs ids)
          :: ((λ d, RedisSet (getSubjectTopicCacheKey (topic_id d))
                      (PTopic (toSubjectTopic d)) (Some 86400)) <$> data)
    ∧ ∀ k, result !! k = toSubjectTopic <$> last (filter (λ d, topic_id d = k) data).
Proof.
  intros Hne Hmiss data. do 2 eexists. split; [by apply topics_on_miss|]. split.
  - rewrite write_back_events. cbn [trace emit]. by rewrite <- !app_assoc.
  - intros k. apply topics_result.
Qed.

(** X23.  When the cache key of a topic determines its id, a batch lookup
    of uncached subject topics that all have a row fills the cache so that
    the same lookup made again returns the same map after the one cache
    read, with no Store query. *)
Theorem topics_batch_read_through (ids : list Z) (w : World) :
  Inj (=) (=) getSubjectTopicCacheKey →
  ids ≠ [] →
  (∀ x, x ∈ ids → redis w !! getSubjectTopicCacheKey x = None) →
  (∀ x, x ∈ ids → ∃ d, d ∈ chiiSubjectTopics (store w) ∧ topic_id d = x) →
  ∃ result w',
    fetchSubjectTopicsByIDs ids w = (Return result, w')
    ∧ fetchSubjectTopicsByIDs ids w'
      = (Return result, emit (RedisMGet (getSubjectTopicCacheKey <$> ids)) w').
Proof.
  intros Hinj Hne Hmiss Hrows.
  set (data := filter (λ d, topic_id d ∈ ids) (chiiSubjectTopics (store w))).
  do 2 eexists. split; [by apply topics_on_miss|]. fold data.
  set (result := foldl _ ∅ data). set (w' := foldl _ _ data).
  assert (Hrow : ∀ x, x ∈ ids →
            ∃ d, last (filter (λ d, topic_id d = x) data) = Some d).
  { intros x Hx. destruct (Hrows x Hx) as (d & Hd & Hid).
    destruct (last (filter (λ d, topic_id d = x) data)) as [d'|] eqn:E; [eauto|].
    apply last_None in E.
    assert (Hin : d ∈ filter (λ d, topic_id d = x) data).
    { apply list_elem_of_filter. split; [done|]. apply list_elem_of_filter.
      split; [by rewrite Hid|done]. }
    rewrite E in Hin. by apply elem_of_nil in Hin. }
  assert (Hcached : ∀ x, x ∈ ids →
            ∃ t, result !! x = Some t
                 ∧ payload <$> redis w' !! getSubjectTopicCacheKey x = Some (PTopic t)).
  { intros x Hx. destruct (Hrow x Hx) as [d Hd]. exists (toSubjectTopic d). split.
    - unfold result. by rewrite topics_result, Hd.
    - unfold w'. rewrite write_back_redis.
      rewrite (list_filter_iff _ (λ d, topic_id d = x)).
      + by rewrite Hd.
      + intros d'. split; [apply Hinj|by intros ->]. }
  assert (Hx0 : ∃ x0, x0 ∈ ids) by (destruct ids as [|x0 ?]; [done|exists x0; left]).
  destruct Hx0 as [x0 Hx0]. destruct (Hcached x0 Hx0) as [t0 _].
  set (g := λ id, default t0 (result !! id)).
  unfold fetchSubjectTopicsByIDs. erewrite bind_run; [|reflexivity].
  set (cached := (λ k, payload <$> redis w' !! k) <$> (getSubjectTopicCacheKey <$> ids)).
  assert (Hat : ∀ idx id, (idx, id) ∈ entries ids →
            at_index cached idx = Some (PTopic (g id))).
  { intros idx id Hin%entries_lookup. unfold at_index, cached.
    rewrite <- list_fmap_compose, list_lookup_fmap, Hin. cbn.
    destruct (Hcached id) as (t & Hr & Hc); [by eapply list_elem_of_lookup_2|].
    unfold g. by rewrite Hr, Hc. }
  erewrite bind_run; cycle 1.
  { apply (for_of_foldl _ _
             (λ acc '(_, id), (<[id := g id]> acc.1, acc.2)) (λ _ w, w)).
    intros [result0 missing0] [idx id] w0 Hin. rewrite (Hat _ _ Hin). by run. }
  replace (foldl (λ w0 _, w0) (emit (RedisMGet (getSubjectTopicCacheKey <$> ids)) w')
             (entries ids))
    with (emit (RedisMGet (getSubjectTopicCacheKey <$> ids)) w')
    by (generalize (entries ids); intros es; induction es; done).
  rewrite (foldl_entries (λ acc id, (<[id := g id]> acc.1, acc.2))).
  assert (Hfold : ∀ (xs : list Z) (acc : gmap Z ITopic * list Z),
            foldl (λ acc id, (<[id := g id]> acc.1, acc.2)) acc xs
            = (foldl (λ m id, <[id := g id]> m) acc.1 xs, acc.2)).
  { induction xs as [|x xs IH]; intros [m l]; [done|]. cbn [foldl]. by rewrite IH. }
  rewrite Hfold. cbn [fst snd length Nat.ltb Nat.leb]. unfold mret, M_ret.
  do 2 f_equal. apply map_eq. intros k. rewrite foldl_insert_lookup.
  destruct (decide (k ∈ ids)) as [Hk|Hk].
  - destruct (Hcached k Hk) as (t & Hr & _). unfold g. by rewrite Hr.
  - unfold result. rewrite topics_result, lookup_empty.
    rewrite filter_none_in; [done|].
    intros d Hd Hid. unfold data in Hd. apply list_elem_of_filter in Hd as [Hd _].
    by rewrite Hid in Hd.
Qed.

End Properties.

(** * Properties of the duration functions *)

Section DurationProperties.

Lemma Z_range_all (P : Z → Prop) `{!∀ n, Decision (P n)} (lo len : Z) :
  bool_decide (Forall P (seqZ lo len)) = true → ∀ n, lo ≤ n < lo + len → P n.
Proof.
  intros Hall%bool_decide_eq_true n Hn. rewrite Forall_forall in Hall.
  apply Hall, elem_of_seqZ. lia.
Qed.

Lemma string_app_nil (s : string) : "" +:+ s = s.
Proof. done. Qed.

Lemma string_app_cons (c : ascii) (a s : string) :
  String c a +:+ s = String c (a +:+ s).
Proof. done. Qed.

Lemma string_app_assoc (a b c : string) : (a +:+ b) +:+ c = a +:+ (b +:+ c).
Proof.
  induction a as [|x a IH]; [done|]. rewrite !string_app_cons. by rewrite IH.
Qed.

Lemma split_without (sep : ascii) (a : string) :
  includes sep a = false → split sep a = [a].
Proof.
  induction a as [|c a IH]; cbn [split includes]; [done|].
  destruct (decide (c = sep)); [done|]. intros Ha. by rewrite IH.
Qed.

Lemma split_at_first (sep : ascii) (a r : string) :
  includes sep a = false → split sep (a +:+ String sep r) = a :: split sep r.
Proof.
  induction a as [|c a IH]; rewrite ?string_app_nil, ?string_app_cons;
    cbn [split includes].
  - intros _. by rewrite decide_True.
  - destruct (decide (c = sep)); [done|]. intros Ha. by rewrite IH.
Qed.

Lemma includes_app (sep : ascii) (a r : string) :
  includes sep (a +:+ String sep r) = true.
Proof.
  induction a as [|c a IH]; rewrite ?string_app_nil, ?string_app_cons;
    cbn [includes]; [by rewrite decide_True|].
  by destruct (decide (c = sep)).
Qed.

Lemma pad_two_digits (n : Z) :
  0 ≤ n < 60 →
  includes ":" (pad n 2) = false
  ∧ (pad n 2 = pretty n ∨ n < 10 ∧ pad n 2 = "0" +:+ pretty n).
Proof.
  apply (Z_range_all
           (λ n, includes ":" (pad n 2) = false
                 ∧ (pad n 2 = pretty n ∨ n < 10 ∧ pad n 2 = "0" +:+ pretty n)) 0 60).
  vm_compute. reflexivity.
Qed.

Lemma hours_no_colon (h : Z) : 0 ≤ h < 24 → includes ":" (pretty h) = false.
Proof.
  apply (Z_range_all (λ h, includes ":" (pretty h) = false) 0 24).
  vm_compute. reflexivity.
Qed.

Lemma includes_append (c : ascii) (a b : string) :
  includes c (a +:+ b) = includes c a || includes c b.
Proof.
  induction a as [|x a IH]; rewrite ?string_app_nil, ?string_app_cons; [done|].
  cbn [includes]. by destruct (decide (x = c)).
Qed.

Lemma pretty_N_go_no_colon (x : N) (s : string) :
  includes ":" (pretty_N_go x s) = includes ":" s.
Proof.
  revert s. induction (N.lt_wf_0 x) as [x _ IH]; intros s.
  assert (x = 0 ∨ 0 < x)%N as [->|Hx] by lia; [done|].
  rewrite pretty_N_go_step by done. rewrite IH by (by apply N.div_lt).
  cbn [includes]. rewrite decide_False; [done|].
  unfold pretty_N_char. by repeat case_match.
Qed.

(** A number is written without a colon. *)
Lemma pretty_no_colon (z : Z) : includes ":" (pretty z) = false.
Proof.
  assert (HN : ∀ n : N, includes ":" (pretty n) = false).
  { intros n. unfold pretty, pretty_N. case_decide; [done|].
    by rewrite pretty_N_go_no_colon. }
  destruct z as [|p|p]; [done|apply HN|].
  unfold pretty, pretty_Z. rewrite includes_append. apply HN.
Qed.

Lemma concat_no_colon (l : list string) :
  Forall (λ x, includes ":" x = false) l → includes ":" (String.concat "" l) = false.
Proof.
  induction 1 as [|x l Hx Hl IH]; [done|]. cbn [String.concat].
  destruct l as [|y l]; [done|].
  change (includes ":" (x +:+ "" +:+ String.concat "" (y :: l)) = false).
  by rewrite !includes_append, Hx, IH.
Qed.

Lemma push_no_colon (v : Z) (unit : string) (l : list string) :
  includes ":" unit = false →
  Forall (λ x, includes ":" x = false) l →
  Forall (λ x, includes ":" x = false)
    (if decide (v = 0) then l else l ++ [pretty v +:+ unit]).
Proof.
  intros Hu Hl. destruct (decide (v = 0)); [done|].
  apply Forall_app. split; [done|]. constructor; [|done].
  by rewrite includes_append, pretty_no_colon, Hu.
Qed.

Lemma formatLongDuration_no_colon (d : Z) : includes ":" (formatLongDuration d) = false.
Proof.
  unfold formatLongDuration. cbn zeta. apply concat_no_colon.
  do 4 (apply push_no_colon; [done|]).
  destruct (decide (d / 31536000 = 0)); [done|].
  constructor; [|done]. by rewrite includes_append, pretty_no_colon.
Qed.

(** The shape of a short duration: hours unpadded and only when not zero,
    then minutes and seconds on two digits. *)
Lemma formatDuration_short (d : Z) :
  0 ≤ d < 86400 →
  formatDuration d
  = (if decide (d / 3600 = 0) then "" else pretty (d / 3600) +:+ ":")
    +:+ pad (d `mod` 3600 / 60) 2 +:+ ":" +:+ pad (d `mod` 60) 2.
Proof.
  intros Hd. unfold formatDuration. rewrite decide_False by lia. cbn zeta.
  rewrite (Z.rem_mod_nonneg d 86400), (Z.mod_small d 86400) by lia.
  rewrite (Z.rem_mod_nonneg d 3600) by lia.
  rewrite (Z.rem_mod_nonneg (d `mod` 3600) 60)
    by (pose proof (Z.mod_pos_bound d 3600); lia).
  rewrite (Z.mod_mod_divide d 3600 60) by (by exists 60).
  destruct (decide (d / 3600 = 0)), (decide (d `mod` 3600 / 60 = 0)) as [->|];
    cbn [app String.concat]; by rewrite ?string_app_assoc.
Qed.

Section RoundTrip.
Variable Number_ : string → JSNumber.
Variable parse_duration_package : string → option JSNumber.
Hypothesis Number_digits : ∀ n, 0 ≤ n < 60 → Number_ (pretty n) = Integer n.
Hypothesis Number_leading_zero :
  ∀ n, 0 ≤ n < 10 → Number_ ("0" +:+ pretty n) = Integer n.

Lemma intval_pad (n : Z) :
  0 ≤ n < 60 → intval Number_ (JString (pad n 2)) = Value n.
Proof.
  intros Hn. unfold intval, parseIntStrict.
  destruct (pad_two_digits n Hn) as [_ [->|[Hlt ->]]].
  - by rewrite Number_digits.
  - by rewrite Number_leading_zero by lia.
Qed.

(** X12.  A duration of less than a day that [formatDuration] has written
    is read back by [parseDuration] as the same number of seconds, and
    passes [validateDuration]; this needs no more of [Number] than that it
    reads one or two decimal digits as their value. *)
Theorem duration_round_trip (d : Z) :
  0 ≤ d < 86400 →
  parseDuration Number_ parse_duration_package (formatDuration d) = Value (Integer d)
  ∧ validateDuration Number_ parse_duration_package (Some (formatDuration d)) = Value tt.
Proof.
  intros Hd.
  assert (Hm : 0 ≤ d `mod` 3600 / 60 < 60).
  { pose proof (Z.mod_pos_bound d 3600 ltac:(lia)).
    split; [apply Z.div_pos; lia|apply Z.div_lt_upper_bound; lia]. }
  assert (Hs : 0 ≤ d `mod` 60 < 60) by (apply Z.mod_pos_bound; lia).
  assert (Hh : 0 ≤ d / 3600 < 24).
  { split; [apply Z.div_pos; lia|apply Z.div_lt_upper_bound; lia]. }
  assert (Hsum : d = d / 3600 * 3600 + d `mod` 3600 / 60 * 60 + d `mod` 60).
  { pose proof (Z.div_mod d 3600 ltac:(lia)).
    pose proof (Z.div_mod (d `mod` 3600) 60 ltac:(lia)).
    rewrite <- (Z.mod_mod_divide d 3600 60) by (by exists 60). lia. }
  destruct (pad_two_digits _ Hm) as [Hcm _]. destruct (pad_two_digits _ Hs) as [Hcs _].
  assert (Hparse : parseDuration Number_ parse_duration_package (formatDuration d)
                   = Value (Integer d)).
  { rewrite formatDuration_short by done. unfold parseDuration.
    destruct (decide (d / 3600 = 0)) as [Hz|Hnz].
    - rewrite !string_app_nil, string_app_cons, string_app_nil. rewrite includes_app.
      rewrite split_at_first, split_without by done. cbn [length Nat.ltb Nat.leb].
      cbn [sum_components]. rewrite !intval_pad by done.
      do 2 f_equal. lia.
    - rewrite !string_app_assoc, !string_app_cons, !string_app_nil.
      rewrite includes_app.
      rewrite split_at_first by (apply hours_no_colon; lia).
      rewrite split_at_first, split_without by done. cbn [length Nat.ltb Nat.leb].
      cbn [sum_components]. unfold intval at 1, parseIntStrict.
      rewrite Number_digits by lia. rewrite !intval_pad by done.
      do 2 f_equal. lia. }
  split; [done|]. unfold validateDuration. rewrite Hparse.
  destruct (formatDuration d) eqn:E; [|done].
  rewrite formatDuration_short in E by done.
  apply (f_equal (includes ":")) in E. revert E.
  destruct (decide (d / 3600 = 0));
    rewrite ?string_app_assoc, ?string_app_cons, ?string_app_nil, includes_app; done.
Qed.

(** X13.  A string with more than two colons is not a duration whatever
    stands between them: [parseDuration] yields [NaN] without looking at
    the components, so nothing is thrown even where a component is not an
    integer, and [validateDuration] rejects the string as a bad request. *)
Theorem too_many_components (a b c rest : string) :
  includes ":" a = false → includes ":" b = false → includes ":" c = false →
  let s := a +:+ ":" +:+ b +:+ ":" +:+ c +:+ ":" +:+ rest in
  parseDuration Number_ parse_duration_package s = Value NaN
  ∧ validateDuration Number_ parse_duration_package (Some s) = Throws BadRequest.
Proof.
  intros Ha Hb Hc s.
  assert (Hs : s = a +:+ String ":" (b +:+ String ":" (c +:+ String ":" rest))).
  { unfold s. by rewrite !string_app_cons, !string_app_nil. }
  assert (Hparse : parseDuration Number_ parse_duration_package s = Value NaN).
  { unfold parseDuration. rewrite Hs, includes_app, !split_at_first by done.
    destruct (split ":" rest) eqn:E; [by destruct rest; cbn in E; repeat case_match|].
    done. }
  split; [done|]. unfold validateDuration. rewrite Hparse.
  destruct s eqn:E; [|done].
  apply (f_equal (includes ":")) in Hs. by rewrite includes_app in Hs.
Qed.

(** X24.  From one day on [formatDuration] writes the duration in units,
    with no colon whatever its length, so [parseDuration] does not read the
    string itself: it returns what the [parse-duration] package makes of
    it, and [NaN] where the package yields nothing. *)
Theorem long_duration_left_to_package (d : Z) :
  86400 ≤ d →
  formatDuration d = formatLongDuration d
  ∧ includes ":" (formatDuration d) = false
  ∧ parseDuration Number_ parse_duration_package (formatDuration d)
    = Value (default NaN (parse_duration_package (formatDuration d))).
Proof.
  intros Hd.
  assert (Hlong : formatDuration d = formatLongDuration d).
  { unfold formatDuration. by rewrite decide_True by lia. }
  split; [done|]. rewrite Hlong. split; [apply formatLongDuration_no_colon|].
  unfold parseDuration. by rewrite formatLongDuration_no_colon.
Qed.

End RoundTrip.

End DurationProperties.

(** * Properties of the random strings *)

Section RandomStringProperties.

Lemma int32_small (z : Z) : - 2 ^ 31 ≤ z < 2 ^ 31 → int32 z = z.
Proof.
  intros Hz. unfold int32.
  change (2 ^ 31) with 2147483648 in *. change (2 ^ 32) with 4294967296.
  rewrite Z.mod_small; lia.
Qed.

(** The mask of an alphabet of [n] characters is [2 ^ (k + 1) - 1] for [k]
    the position of the top bit of [(n - 1) | 1]. *)
Lemma customAlphabet_mask_log2 (n : Z) :
  1 ≤ n ≤ 2 ^ 30 → customAlphabet_mask n = 2 ^ (Z.log2 (n - 1) + 1) - 1.
Proof.
  intros Hn. unfold customAlphabet_mask.
  assert (H30 : (2 : Z) ^ 30 = 1073741824) by reflexivity.
  assert (H31 : (2 : Z) ^ 31 = 2147483648) by reflexivity.
  assert (H32 : (2 : Z) ^ 32 = 4294967296) by reflexivity.
  rewrite int32_small by lia.
  set (m := Z.lor (n - 1) 1).
  assert (Hlog : Z.log2 m = Z.log2 (n - 1)).
  { unfold m. rewrite Z.log2_lor by lia. change (Z.log2 1) with 0.
    pose proof (Z.log2_nonneg (n - 1)). lia. }
  assert (Hk : 0 ≤ Z.log2 (n - 1) < 30).
  { split; [apply Z.log2_nonneg|].
    destruct (decide (n - 1 = 0)) as [->|]; [done|].
    apply Z.log2_lt_pow2; lia. }
  assert (Hm : 0 < m < 2 ^ 30).
  { assert (0 ≤ m) by (apply Z.lor_nonneg; lia).
    assert (m ≠ 0) by (unfold m; rewrite Z.lor_eq_0_iff; lia).
    split; [lia|]. apply Z.log2_lt_pow2; lia. }
  unfold clz32. rewrite Z.mod_small by lia. rewrite decide_False by lia.
  rewrite Hlog. replace (31 - (31 - Z.log2 (n - 1))) with (Z.log2 (n - 1)) by lia.
  unfold shl32. rewrite (int32_small 2) by lia. rewrite Z.mod_small by lia.
  assert (Hp : 2 * 2 ^ Z.log2 (n - 1) = 2 ^ (Z.log2 (n - 1) + 1)).
  { rewrite Z.pow_add_r by lia. lia. }
  assert (Hle : 2 ^ (Z.log2 (n - 1) + 1) ≤ 2 ^ 30).
  { apply Z.pow_le_mono_r; lia. }
  assert (0 < 2 ^ (Z.log2 (n - 1) + 1)) by (apply Z.pow_pos_nonneg; lia).
  rewrite Hp, int32_small by lia. done.
Qed.

(** X14.  For an alphabet of 1 to 2^30 characters the mask is one less than
    a power of two that is at least the length of the alphabet and, from
    two characters on, less than twice that length; masking leaves every
    index of the alphabet as it is and takes every integer into the range
    from 0 to the mask. *)
Theorem mask_covers_alphabet (n : Z) :
  1 ≤ n ≤ 2 ^ 30 →
  let mask := customAlphabet_mask n in
  (∃ k, 0 < k ∧ mask + 1 = 2 ^ k)
  ∧ n ≤ mask + 1
  ∧ (2 ≤ n → mask + 1 < 2 * n)
  ∧ (∀ i, 0 ≤ i < n → Z.land i mask = i)
  ∧ (∀ b, 0 ≤ Z.land b mask ≤ mask).
Proof.
  intros Hn mask. unfold mask. rewrite customAlphabet_mask_log2 by done.
  set (k := Z.log2 (n - 1)).
  assert (Hk : 0 ≤ k) by apply Z.log2_nonneg.
  assert (Hpos : 0 < 2 ^ (k + 1)) by (apply Z.pow_pos_nonneg; lia).
  assert (Hp : 2 ^ (k + 1) = 2 * 2 ^ k) by (rewrite Z.pow_add_r by lia; lia).
  assert (Hup : n ≤ 2 ^ (k + 1)).
  { destruct (decide (n = 1)) as [->|]; [done|].
    pose proof (Z.log2_spec (n - 1) ltac:(lia)) as [_ Hlt].
    fold k in Hlt. replace (Z.succ k) with (k + 1) in Hlt by lia. lia. }
  assert (Hones : 2 ^ (k + 1) - 1 = Z.ones (k + 1)).
  { rewrite Z.ones_equiv. lia. }
  split; [exists (k + 1); split; lia|].
  split; [lia|]. split.
  - intros H2. pose proof (Z.log2_spec (n - 1) ltac:(lia)) as [Hlo _]. fold k in Hlo. lia.
  - split.
    + intros i Hi. rewrite Hones, Z.land_ones by lia. apply Z.mod_small. lia.
    + intros b. rewrite Hones, Z.land_ones by lia. rewrite <- Hones.
      pose proof (Z.mod_pos_bound b (2 ^ (k + 1)) Hpos). lia.
Qed.

Lemma string_app_nil_r (s : string) : s +:+ "" = s.
Proof. induction s as [|c s IH]; [done|]. by rewrite string_app_cons, IH. Qed.

Lemma string_get_Some (s : string) (n : nat) :
  (n < String.length s)%nat → ∃ c, String.get n s = Some c.
Proof.
  revert n. induction s as [|c s IH]; intros [|n] Hn; simpl in *; try lia; eauto.
  apply IH. lia.
Qed.

Lemma string_get_None (s : string) (n : nat) :
  (String.length s ≤ n)%nat → String.get n s = None.
Proof.
  revert n. induction s as [|c s IH]; intros [|n] Hn; simpl in *; try lia; eauto.
  apply IH. lia.
Qed.

Lemma alphabet_at_selects (alphabet : string) (mask b : Z) :
  selects alphabet mask b →
  ∃ c, alphabet_at alphabet (Z.land b mask) = String c "".
Proof.
  intros [H0 Hlt]. unfold alphabet_at. rewrite decide_False by lia.
  destruct (string_get_Some alphabet (Z.to_nat (Z.land b mask))) as [c ->]; [lia|eauto].
Qed.

Lemma alphabet_at_rejects (alphabet : string) (mask b : Z) :
  ¬ selects alphabet mask b → alphabet_at alphabet (Z.land b mask) = "".
Proof.
  intros Hno. unfold alphabet_at. destruct (decide (Z.land b mask < 0)); [done|].
  rewrite string_get_None; [done|]. unfold selects in Hno. lia.
Qed.

Lemma selected_app (alphabet : string) (mask : Z) (l1 l2 : list Z) :
  selected alphabet mask (l1 ++ l2)
  = selected alphabet mask l1 +:+ selected alphabet mask l2.
Proof.
  induction l1 as [|b l1 IH]; [done|].
  cbn [app selected foldr]. fold (selected alphabet mask (l1 ++ l2)).
  fold (selected alphabet mask l1). by rewrite IH, string_app_assoc.
Qed.

Lemma selected_cons (alphabet : string) (mask b : Z) (l : list Z) :
  selected alphabet mask (b :: l)
  = alphabet_at alphabet (Z.land b mask) +:+ selected alphabet mask l.
Proof. done. Qed.

(** Rejected bytes append nothing. *)
Lemma selected_filter (alphabet : string) (mask : Z) (l : list Z) :
  selected alphabet mask (filter (selects alphabet mask) l) = selected alphabet mask l.
Proof.
  induction l as [|b l IH]; [done|]. rewrite filter_cons, (selected_cons _ _ b l).
  destruct (decide (selects alphabet mask b)) as [Hb|Hb].
  - by rewrite selected_cons, IH.
  - by rewrite IH, alphabet_at_rejects, string_app_nil.
Qed.

(** Selecting bytes append one character each. *)
Lemma selected_length (alphabet : string) (mask : Z) (l : list Z) :
  Forall (selects alphabet mask) l →
  String.length (selected alphabet mask l) = length l.
Proof.
  induction 1 as [|b l Hb _ IH]; [done|].
  rewrite selected_cons, string_length_app, IH.
  destruct (alphabet_at_selects _ _ _ Hb) as [c ->]. done.
Qed.

Lemma Forall_filter_selects (alphabet : string) (mask : Z) (l : list Z) :
  Forall (selects alphabet mask) (filter (selects alphabet mask) l).
Proof. apply Forall_forall. intros x Hx. by apply list_elem_of_filter in Hx as [? _]. Qed.

(** One buffer, read while the prefix is shorter than [size]. *)
Lemma tick_bytes_short (alphabet : string) (mask : Z) (bytes : list Z) (prefix : string)
    (size : Z) :
  Z.of_nat (String.length prefix) < size →
  let acc := filter (selects alphabet mask) bytes in
  let need := size - Z.of_nat (String.length prefix) in
  tick_bytes alphabet mask bytes prefix size
  = if decide (need ≤ Z.of_nat (length acc))
    then Done (prefix +:+ selected alphabet mask (take (Z.to_nat need) acc))
    else Again (prefix +:+ selected alphabet mask acc).
Proof.
  revert prefix. induction bytes as [|b bytes IH]; intros prefix Hlt; cbn zeta.
  - cbn [tick_bytes filter list_filter length]. rewrite decide_False by lia.
    by rewrite string_app_nil_r.
  - cbn [tick_bytes]. rewrite filter_cons.
    destruct (decide (selects alphabet mask b)) as [Hb|Hb].
    + destruct (alphabet_at_selects _ _ _ Hb) as [c Hc]. rewrite Hc.
      assert (Hlen : String.length (prefix +:+ String c "") = S (String.length prefix)).
      { rewrite string_length_app. cbn. lia. }
      rewrite Hlen. cbn [length].
      destruct (decide (Z.of_nat (S (String.length prefix)) = size)) as [He|He].
      * rewrite decide_True by lia.
        replace (Z.to_nat (size - Z.of_nat (String.length prefix))) with 1%nat by lia.
        cbn [take]. rewrite selected_cons, Hc. cbn [selected foldr].
        by rewrite string_app_nil_r.
      * rewrite IH by lia. cbn zeta. rewrite Hlen.
        replace (Z.to_nat (size - Z.of_nat (String.length prefix)))
          with (S (Z.to_nat (size - Z.of_nat (S (String.length prefix))))) by lia.
        cbn [take]. rewrite !selected_cons, Hc, <- !string_app_assoc.
        destruct (decide (size - Z.of_nat (S (String.length prefix))
                          ≤ Z.of_nat (length (filter (selects alphabet mask) bytes))));
          [rewrite decide_True by lia|rewrite decide_False by lia]; done.
    + rewrite (alphabet_at_rejects _ _ _ Hb), string_app_nil_r.
      rewrite decide_False by lia. by rewrite IH.
Qed.

Lemma read_order_cons (buffer : list Z) (rest : list (list Z)) :
  read_order (buffer :: rest) = reverse buffer ++ read_order rest.
Proof. done. Qed.

Lemma tick_short (alphabet : string) (mask : Z) (buffers : list (list Z))
    (prefix : string) (size : Z) :
  Z.of_nat (String.length prefix) < size →
  let acc := filter (selects alphabet mask) (read_order buffers) in
  let need := size - Z.of_nat (String.length prefix) in
  tick alphabet mask buffers prefix size
  = if decide (need ≤ Z.of_nat (length acc))
    then Done (prefix +:+ selected alphabet mask (take (Z.to_nat need) acc))
    else Again (prefix +:+ selected alphabet mask acc).
Proof.
  revert prefix. induction buffers as [|buffer rest IH]; intros prefix Hlt; cbn zeta.
  - cbn [tick read_order fmap list_fmap mjoin list_join filter list_filter length].
    rewrite decide_False by lia. by rewrite string_app_nil_r.
  - cbn [tick]. rewrite read_order_cons, filter_app.
    set (acc1 := filter (selects alphabet mask) (reverse buffer)).
    set (acc2 := filter (selects alphabet mask) (read_order rest)).
    rewrite tick_bytes_short by done. cbn zeta. fold acc1. rewrite length_app.
    destruct (decide (size - Z.of_nat (String.length prefix) ≤ Z.of_nat (length acc1)))
      as [Hle|Hgt].
    + rewrite decide_True by lia. by rewrite take_app_le by lia.
    + assert (Hlen : String.length (prefix +:+ selected alphabet mask acc1)
                     = (String.length prefix + length acc1)%nat).
      { rewrite string_length_app, selected_length; [done|].
        apply Forall_filter_selects. }
      rewrite IH by lia. cbn zeta. fold acc2. rewrite Hlen.
      rewrite take_app_ge by lia.
      replace (Z.to_nat (size - Z.of_nat (String.length prefix)) - length acc1)%nat
        with (Z.to_nat (size - Z.of_nat (String.length prefix + length acc1))) by lia.
      rewrite !selected_app, <- !string_app_assoc.
      destruct (decide (size - Z.of_nat (String.length prefix + length acc1)
                        ≤ Z.of_nat (length acc2)));
        [rewrite decide_True by lia|rewrite decide_False by lia]; done.
Qed.

(** X15.  Started below the requested size, [tick] completes exactly when
    the bytes it reads hold as many selecting bytes as characters are still
    needed; the string is then the prefix followed by the characters of the
    first such bytes in reading order, each buffer from its last byte to its
    first, and has the requested length.  With fewer selecting bytes every
    buffer is used up and all their characters are appended. *)
Theorem tick_takes_first_selected (alphabet : string) (mask : Z) (buffers : list (list Z))
    (prefix : string) (size : Z) :
  Z.of_nat (String.length prefix) < size →
  let acc := filter (selects alphabet mask) (read_order buffers) in
  let need := size - Z.of_nat (String.length prefix) in
  (need ≤ Z.of_nat (length acc) →
     let s := prefix +:+ selected alphabet mask (take (Z.to_nat need) acc) in
     tick alphabet mask buffers prefix size = Done s
     ∧ Z.of_nat (String.length s) = size)
  ∧ (Z.of_nat (length acc) < need →
     tick alphabet mask buffers prefix size
     = Again (prefix +:+ selected alphabet mask (read_order buffers))).
Proof.
  intros Hlt acc need. pose proof (tick_short alphabet mask buffers prefix size Hlt) as H.
  cbn zeta in H. fold acc need in H. split.
  - intros Hle s. rewrite decide_True in H by done. split; [done|].
    unfold s. rewrite string_length_app, selected_length.
    + rewrite length_take. lia.
    + apply Forall_take, Forall_filter_selects.
  - intros Hgt. rewrite decide_False in H by lia. rewrite H. unfold acc.
    by rewrite selected_filter.
Qed.

Lemma tick_bytes_past (alphabet : string) (mask : Z) (bytes : list Z) (prefix : string)
    (size : Z) :
  size < Z.of_nat (String.length prefix) →
  tick_bytes alphabet mask bytes prefix size
  = Again (prefix +:+ selected alphabet mask bytes).
Proof.
  revert prefix. induction bytes as [|b bytes IH]; intros prefix Hlt.
  - cbn [tick_bytes selected foldr]. by rewrite string_app_nil_r.
  - cbn [tick_bytes]. rewrite selected_cons.
    pose proof (string_length_app prefix (alphabet_at alphabet (Z.land b mask))).
    rewrite decide_False by lia. rewrite IH by lia. by rewrite string_app_assoc.
Qed.

Lemma tick_past (alphabet : string) (mask : Z) (buffers : list (list Z))
    (prefix : string) (size : Z) :
  size < Z.of_nat (String.length prefix) →
  tick alphabet mask buffers prefix size
  = Again (prefix +:+ selected alphabet mask (read_order buffers)).
Proof.
  revert prefix. induction buffers as [|buffer rest IH]; intros prefix Hlt.
  - cbn. by rewrite string_app_nil_r.
  - cbn [tick]. rewrite tick_bytes_past by done.
    pose proof (string_length_app prefix (selected alphabet mask (reverse buffer))).
    rewrite IH by lia. rewrite read_order_cons, selected_app.
    by rewrite string_app_assoc.
Qed.

(** X16.  [tick] compares lengths for equality only.  Started on a prefix
    that is longer than the requested size, which a negative size always
    is, it never completes, however many buffers it reads.  Started on a
    prefix of exactly the requested size, as for size 0, it returns the
    prefix if the first byte it reads selects no character, and never
    completes if that byte selects one. *)
Theorem tick_past_size (alphabet : string) (mask : Z) (buffers : list (list Z))
    (prefix : string) (size : Z) :
  size ≤ Z.of_nat (String.length prefix) →
  (size < Z.of_nat (String.length prefix) →
     tick alphabet mask buffers prefix size
     = Again (prefix +:+ selected alphabet mask (read_order buffers)))
  ∧ (∀ b rest, size = Z.of_nat (String.length prefix) →
       read_order buffers = b :: rest →
       tick alphabet mask buffers prefix size
       = if decide (selects alphabet mask b)
         then Again (prefix +:+ selected alphabet mask (b :: rest))
         else Done prefix).
Proof.
  intros _. split; [apply tick_past|].
  revert prefix. induction buffers as [|buffer more IH]; intros prefix b rest Hsize Hread.
  - done.
  - rewrite read_order_cons in Hread. cbn [tick].
    destruct (reverse buffer) as [|b' bytes] eqn:Hrev.
    + cbn [tick_bytes]. by apply IH.
    + injection Hread as -> Hrest. cbn [tick_bytes].
      destruct (decide (selects alphabet mask b)) as [Hb|Hb].
      * destruct (alphabet_at_selects _ _ _ Hb) as [c Hc]. 
        assert (Hlen : String.length (prefix +:+ alphabet_at alphabet (Z.land b mask))
                       = S (String.length prefix)).
        { rewrite string_length_app, Hc. cbn. lia. }
        rewrite decide_False by lia.
        rewrite tick_bytes_past by lia.
        pose proof (string_length_app
                      (prefix +:+ alphabet_at alphabet (Z.land b mask))
                      (selected alphabet mask bytes)).
        rewrite tick_past by lia.
        rewrite <- Hrest, selected_cons, selected_app. by rewrite !string_app_assoc.
      * rewrite (alphabet_at_rejects _ _ _ Hb), string_app_nil_r.
        by rewrite decide_True by lia.
Qed.

End RandomStringProperties.

(** * Properties of the wiki routes *)

Section WikiProperties.
Variable fetchSubject : Z → option WikiSubject.
Variable Subject_edit : EditArgs → Reply unit.

Lemma unchanged_iff (s : WikiSubject) (p : PartialSubjectEdit) :
  bool_decide (default (wiki_infobox s) (partial_infobox p) = wiki_infobox s)
  && bool_decide (default (wiki_name s) (partial_name p) = wiki_name s)
  && bool_decide (default (wiki_platform s) (partial_platform p) = wiki_platform s)
  && bool_decide (default (wiki_summary s) (partial_summary p) = wiki_summary s)
  && bool_decide (partial_date p = None) = false
  ↔ changes s p.
Proof.
  unfold changes, merged. cbn [edit_name edit_infobox edit_platform edit_summary edit_date].
  rewrite !andb_false_iff, !bool_decide_eq_false. tauto.
Qed.

(** X17.  A PATCH that names at least one key and changes the stored
    subject, be it by a value that differs or by carrying a date, runs as
    the PUT whose body is the stored subject overwritten by the keys given:
    same calls, same arguments of the edit, same reply, whether or not the
    user may edit and the subject is locked. *)
Theorem patch_is_put_of_merged (auth : Auth) (commitMessage : string)
    (input : PartialSubjectEdit) (subjectID : Z) (s : WikiSubject) :
  fetchSubject subjectID = Some s →
  keys_length input ≠ 0%nat →
  changes s input →
  patchSubjectInfo fetchSubject Subject_edit auth commitMessage input subjectID
  = putSubjectInfo fetchSubject Subject_edit auth commitMessage (merged s input) subjectID.
Proof.
  intros Hs Hkeys Hchanges%unchanged_iff. unfold patchSubjectInfo, putSubjectInfo.
  destruct (negb (permission_subject_edit auth)); [done|].
  rewrite decide_False by done. rewrite Hs.
  destruct (wiki_locked s); [done|]. cbn zeta. by rewrite Hchanges.
Qed.

(** X18.  A PATCH by a permitted user on an unlocked subject whose keys
    change nothing (values equal to the stored ones, or keys the schema does
    not name) and that carries no date replies with success without calling
    the edit, and without the fetch when it has no key at all; the PUT of
    the same values does call the edit. *)
Theorem patch_without_change (auth : Auth) (commitMessage : string)
    (input : PartialSubjectEdit) (subjectID : Z) (s : WikiSubject) :
  permission_subject_edit auth = true →
  fetchSubject subjectID = Some s →
  wiki_locked s = false →
  ¬ changes s input →
  patchSubjectInfo fetchSubject Subject_edit auth commitMessage input subjectID
  = (if decide (keys_length input = 0%nat) then [] else [FetchSubject subjectID],
     Replied tt)
  ∧ edits (putSubjectInfo fetchSubject Subject_edit auth commitMessage (merged s input)
             subjectID).1
    = [{| args_subjectID := subjectID;
          args_name := wiki_name s;
          args_infobox := wiki_infobox s;
          args_platform := wiki_platform s;
          args_date := None;
          args_summary := wiki_summary s;
          args_userID := auth_userID auth;
          args_commitMessage := commitMessage |}].
Proof.
  intros Hperm Hs Hunlocked Hsame. split.
  - unfold patchSubjectInfo. rewrite Hperm. cbn [negb].
    destruct (decide (keys_length input = 0%nat)); [done|]. rewrite Hs, Hunlocked.
    cbn zeta. rewrite <- unchanged_iff in Hsame. apply not_false_is_true in Hsame.
    by rewrite Hsame.
  - unfold putSubjectInfo. rewrite Hperm, Hs, Hunlocked. cbn [negb fst edits omap].
    unfold changes in Hsame.
    destruct (decide (edit_name (merged s input) = wiki_name s)) as [->|]; [|tauto].
    destruct (decide (edit_infobox (merged s input) = wiki_infobox s)) as [->|]; [|tauto].
    destruct (decide (edit_platform (merged s input) = wiki_platform s)) as [->|]; [|tauto].
    destruct (decide (edit_summary (merged s input) = wiki_summary s)) as [->|]; [|tauto].
    destruct (decide (edit_date (merged s input) = None)) as [->|]; [|tauto].
    done.
Qed.

(** X19.  Neither PUT nor PATCH ever calls the edit unless the user holds
    the edit permission and the subject exists and is not locked; the call
    is then the last of the handler, made once, for the subject of the route
    and in the name of the user and the commit message of the request. *)
Theorem edit_only_when_allowed (auth : Auth) (commitMessage : string) (body : SubjectEdit)
    (input : PartialSubjectEdit) (subjectID : Z) (calls : list Call) (args : EditArgs) :
  calls = (putSubjectInfo fetchSubject Subject_edit auth commitMessage body subjectID).1
  ∨ calls = (patchSubjectInfo fetchSubject Subject_edit auth commitMessage input
               subjectID).1 →
  EditSubject args ∈ calls →
  permission_subject_edit auth = true
  ∧ (∃ s, fetchSubject subjectID = Some s ∧ wiki_locked s = false)
  ∧ calls = [FetchSubject subjectID; EditSubject args]
  ∧ args_subjectID args = subjectID
  ∧ args_userID args = auth_userID auth
  ∧ args_commitMessage args = commitMessage.
Proof.
  unfold putSubjectInfo, patchSubjectInfo.
  destruct (permission_subject_edit auth); cbn [negb];
    [|intros [->| ->] Hin; by apply elem_of_nil in Hin].
  intros Hcalls Hin.
  assert (Hshape : ∀ s, fetchSubject subjectID = Some s → wiki_locked s = false →
            ∀ a, calls = [FetchSubject subjectID; EditSubject a] →
            args_subjectID a = subjectID → args_userID a = auth_userID auth →
            args_commitMessage a = commitMessage →
            true = true
            ∧ (∃ s, fetchSubject subjectID = Some s ∧ wiki_locked s = false)
            ∧ calls = [FetchSubject subjectID; EditSubject args]
            ∧ args_subjectID args = subjectID
            ∧ args_userID args = auth_userID auth
            ∧ args_commitMessage args = commitMessage).
  { intros s Hs Hl a -> H1 H2 H3.
    rewrite !elem_of_cons, elem_of_nil in Hin.
    destruct Hin as [|[[= ->]|[]]]; [done|]. eauto 10. }
  destruct Hcalls as [->| ->].
  - destruct (fetchSubject subjectID) as [s|] eqn:Hs.
    + destruct (wiki_locked s) eqn:Hl.
      * cbn in Hin. rewrite list_elem_of_singleton in Hin. done.
      * by eapply Hshape.
    + cbn in Hin. rewrite list_elem_of_singleton in Hin. done.
  - destruct (decide (keys_length input = 0%nat)); [by apply elem_of_nil in Hin|].
    destruct (fetchSubject subjectID) as [s|] eqn:Hs.
    + destruct (wiki_locked s) eqn:Hl.
      * cbn in Hin. rewrite list_elem_of_singleton in Hin. done.
      * cbn zeta in *.
        destruct (_ && _).
        -- cbn in Hin. rewrite list_elem_of_singleton in Hin. done.
        -- by eapply Hshape.
    + cbn in Hin. rewrite list_elem_of_singleton in Hin. done.
Qed.

(** X20.  The three routes disagree on a subject that does not exist: GET
    and PUT raise a not-found error, PATCH raises a bad-request error, and a
    PATCH without any key replies with success without looking the subject
    up. *)
Theorem missing_subject_replies (platforms : Z → list WikiPlatform) (auth : Auth)
    (commitMessage : string) (body : SubjectEdit) (input : PartialSubjectEdit)
    (subjectID : Z) :
  fetchSubject subjectID = None →
  permission_subject_edit auth = true →
  subjectInfo fetchSubject platforms subjectID
  = ([FetchSubject subjectID], Raised (NotFoundError subjectID))
  ∧ putSubjectInfo fetchSubject Subject_edit auth commitMessage body subjectID
    = ([FetchSubject subjectID], Raised (NotFoundError subjectID))
  ∧ patchSubjectInfo fetchSubject Subject_edit auth commitMessage input subjectID
    = if decide (keys_length input = 0%nat) then ([], Replied tt)
      else ([FetchSubject subjectID], Raised (BadRequestError subjectID)).
Proof.
  intros Hs Hperm. unfold subjectInfo, putSubjectInfo, patchSubjectInfo.
  rewrite Hs, Hperm. cbn [negb]. by destruct (decide (keys_length input = 0%nat)).
Qed.

End WikiProperties.

(** * The statements on concrete worlds *)

Section Witnesses.
Local Existing Instance sample.

(** C1 on subject 5, cached as NSFW in both shapes. *)
Lemma nsfw_rechecked_on_cache_hit_witness :
  cached_as nsfw_world (getSubjectSlimCacheKey 5) (PSlimSubject (sample_subject 5 0 true))
  ∧ fetchSlimSubjectByID 5 false nsfw_world
    = (Return None, emit (RedisGet (getSubjectSlimCacheKey 5)) nsfw_world)
  ∧ fetchSlimSubjectByID 5 true nsfw_world
    = (Return (Some (sample_subject 5 0 true)),
       emit (RedisGet (getSubjectSlimCacheKey 5)) nsfw_world)
  ∧ fetchSubjectByID 5 false nsfw_world
    = (Return None, emit (RedisGet (getSubjectItemCacheKey 5)) nsfw_world)
  ∧ fetchSubjectByID 5 true nsfw_world
    = (Return (Some (sample_subject 5 0 true, sample_fields 5)),
       emit (RedisGet (getSubjectItemCacheKey 5)) nsfw_world).
Proof.
  destruct (nsfw_rechecked_on_cache_hit 5 nsfw_world) as [Hslim Hitem].
  assert (Hs : cached_as nsfw_world (getSubjectSlimCacheKey 5)
                 (PSlimSubject (sample_subject 5 0 true))) by reflexivity.
  assert (Hi : cached_as nsfw_world (getSubjectItemCacheKey 5)
                 (PSubject (sample_subject 5 0 true, sample_fields 5))) by reflexivity.
  split; [exact Hs|].
  destruct (Hslim _ Hs eq_refl) as [H1 H2].
  destruct (Hitem _ Hi eq_refl) as [H3 H4].
  repeat split; assumption.
Defined.

(** C2 as stated fails: 25 anime match, the first page holds 24 of them
    and its [total] is 2. *)
Lemma paged_total_counterexample :
  (fetchSubjectIDsByFilter anime Collects 1 (world_of store25 ∅)).1
  = Return ({| paged_data := Z.of_nat <$> reverse (seq 2 24); paged_total := 2 |}, anime)
  ∧ Z.of_nat (length (matching (conditions_of anime Collects) store25)) = 25
  ∧ (2 : Z) ≠ 25.
Proof. split; [vm_compute; reflexivity|]. split; [vm_compute; reflexivity|discriminate]. Qed.

(** C2 as the code has it, on the second page of the same 25 anime. *)
Lemma paged_total_is_page_count_witness :
  redis (world_of store25 ∅) !! getSubjectListCacheKey anime Collects 2 = None
  ∧ ∃ r fl' w',
      fetchSubjectIDsByFilter anime Collects 2 (world_of store25 ∅) = (Return (r, fl'), w')
      ∧ let count := Z.of_nat (length (matching (conditions_of fl' Collects) store25)) in
        paged_total r = Math_ceil_div count 24
        ∧ 24 * (paged_total r - 1) < count ≤ 24 * paged_total r
        ∧ (length (paged_data r) ≤ 24)%nat
        ∧ (count ≠ 0 →
             (∃ order, paged_data r
                       = page_of store25 (conditions_of fl' Collects) order 2)
             ∧ redis w' !! getSubjectListCacheKey anime Collects 2
               = Some {| payload := PPaged r; ttl := Some 3600 |}).
Proof.
  assert (Hmiss : redis (world_of store25 ∅) !! getSubjectListCacheKey anime Collects 2
                  = None) by reflexivity.
  split; [exact Hmiss|].
  apply (paged_total_is_page_count anime Collects 2 (world_of store25 ∅) [] Hmiss).
  discriminate.
Defined.

(** C3 on a world whose anime/month lock is held. *)
Lemma lock_guard_and_flush_witness :
  redis locked_world !! lockKey_of (getSubjectTrendingKey 2 "month") = Some the_lock
  ∧ updateTrendingSubjects 2 "month" false locked_world
    = (Return tt,
       emit (Logged Info)
         (emit (RedisGet (lockKey_of (getSubjectTrendingKey 2 "month"))) locked_world))
  ∧ ∃ w', updateTrendingSubjects 2 "month" true locked_world = (Return tt, w')
      ∧ cached_as w' (getSubjectTrendingKey 2 "month")
          (PTrending [ {| item_id := 20; item_total := 9 |};
                       {| item_id := 10; item_total := 5 |};
                       {| item_id := 30; item_total := 1 |} ])
      ∧ redis w' !! lockKey_of (getSubjectTrendingKey 2 "month") = None.
Proof.
  assert (Hlive : redis locked_world !! lockKey_of (getSubjectTrendingKey 2 "month")
                  = Some the_lock) by reflexivity.
  split; [exact Hlive|].
  destruct (lock_guard_and_flush 2 "month" locked_world the_lock Hlive) as [Hbusy Hflush].
  split; [exact Hbusy|].
  destruct (Hflush 2592000 eq_refl) as (w' & Hrun & _ & Hc & Hl).
  exists w'. split; [exact Hrun|]. split; [exact Hc|exact Hl].
Defined.

(** C4 on a period the duration table does not know. *)
Lemma invalid_period_keeps_lock_witness :
  truthy_number (getTrendingPeriodDuration "decade") = None
  ∧ ∃ w', updateTrendingSubjects 2 "decade" false (world_of trending_store ∅)
          = (Return tt, w')
      ∧ trace w' = [RedisGet (lockKey_of (getSubjectTrendingKey 2 "decade"));
                    RedisSet (lockKey_of (getSubjectTrendingKey 2 "decade"))
                      (PNumber 1) (Some 3600);
                    Logged Info; Logged Error]
      ∧ redis w' !! lockKey_of (getSubjectTrendingKey 2 "decade") = Some the_lock
      ∧ redis w' !! getSubjectTrendingKey 2 "decade" = None.
Proof.
  assert (Hfree : redis (world_of trending_store ∅)
                    !! lockKey_of (getSubjectTrendingKey 2 "decade") = None)
    by reflexivity.
  split; [reflexivity|].
  destruct (invalid_period_keeps_lock 2 "decade" false (world_of trending_store ∅)
              eq_refl (or_intror Hfree)) as (w' & Hrun & Ht & Hl & Hk & _).
  exists w'. split; [exact Hrun|]. split; [exact Ht|]. split; [exact Hl|exact Hk].
Defined.

(** C5 on the counts {10:5, 20:9, 30:1}. *)
Lemma trending_ranked_and_sliced_witness :
  ∃ w', updateTrendingSubjects 2 "month" false (world_of trending_store ∅) = (Return tt, w')
    ∧ cached_as w' (getSubjectTrendingKey 2 "month")
        (PTrending (to_item <$> [(20, 9); (10, 5); (30, 1)]))
    ∧ getTrendingSubjects 2 "month" 2 1 w'
      = (Return (to_item <$> [(10, 5); (30, 1)]),
         emit (RedisGet (getSubjectTrendingKey 2 "month")) w').
Proof.
  destruct (trending_ranked_and_sliced 2 "month") as (Hwrite & Hlist & Hread & _ & _).
  assert (Hfree : redis (world_of trending_store ∅)
                    !! lockKey_of (getSubjectTrendingKey 2 "month") = None)
    by reflexivity.
  destruct (Hwrite false (world_of trending_store ∅) 2592000 (or_intror Hfree) eq_refl)
    as (w' & Hrun & Hc).
  destruct (Hlist (world_of trending_store ∅) 2592000) as (_ & _ & _ & _ & Hex).
  assert (Hitems : cached_as w' (getSubjectTrendingKey 2 "month")
                     (PTrending (to_item <$> [(20, 9); (10, 5); (30, 1)]))).
  { unfold cached_as. rewrite Hc. cbn [fmap option_fmap option_map payload].
    rewrite Hex; [reflexivity|]. vm_compute. reflexivity. }
  exists w'. split; [exact Hrun|]. split; [exact Hitems|].
  apply (Hread w' _ 2 1 Hitems); discriminate.
Defined.

(** C6 on the input [1,2,2,3]. *)
Lemma batch_dedup_and_ban_witness :
  subject_rows batch_store 1 = [(sample_subject 1 0 false, sample_fields 1)]
  ∧ subject_rows batch_store 2 = [(sample_subject 2 1 false, sample_fields 2)]
  ∧ subject_rows batch_store 3 = [(sample_subject 3 0 false, sample_fields 3)]
  ∧ ∃ result w',
      fetchSlimSubjectsByIDs [1; 2; 2; 3] false (world_of batch_store ∅) = (Return result, w')
      ∧ dom result = {[1; 3]}.
Proof.
  split; [reflexivity|]. split; [reflexivity|]. split; [reflexivity|].
  destruct (batch_dedup_and_ban [1; 2; 2; 3] false (world_of batch_store ∅)
              (sample_subject 1 0 false, sample_fields 1)
              (sample_subject 3 0 false, sample_fields 3))
    as (result & w' & Hrun & Hdom & _).
  - intros x. rewrite !elem_of_cons. tauto.
  - intros x _. apply lookup_empty.
  - reflexivity.
  - discriminate.
  - reflexivity.
  - discriminate.
  - discriminate.
  - repeat constructor.
  - intros _. split; reflexivity.
  - exists result, w'. split; [exact Hrun|exact Hdom].
Defined.

(** C9 on the banned episode 7. *)
Lemma banned_episode_single_vs_batch_witness :
  filter (λ d, episode_id d = 7) (chiiEpisodes episode_store)
  = [{| episode_id := 7; episode_ban := 1 |}]
  ∧ fetchEpisodeByID 7 (world_of episode_store ∅)
    = (Return None,
       emit (DbSelect (SelectEpisodeByID 7))
         (emit (RedisGet (getSubjectEpCacheKey 7)) (world_of episode_store ∅)))
  ∧ ∃ w', fetchEpisodesByIDs [7] (world_of episode_store ∅)
          = (Return {[ 7 := {| episode_id := 7; episode_ban := 1 |} ]}, w')
      ∧ cached_as w' (getSubjectEpCacheKey 7)
          (PEpisode {| episode_id := 7; episode_ban := 1 |}).
Proof.
  assert (Hmiss : redis (world_of episode_store ∅) !! getSubjectEpCacheKey 7 = None)
    by reflexivity.
  split; [reflexivity|].
  destruct (banned_episode_single_vs_batch (world_of episode_store ∅) 7
              {| episode_id := 7; episode_ban := 1 |} eq_refl eq_refl Hmiss)
    as (Hsingle & w' & Hbatch & Hredis & _).
  split; [exact Hsingle|]. exists w'. split; [exact Hbatch|].
  unfold cached_as. rewrite Hredis. reflexivity.
Defined.

(** C10 on a filter without ids, sorted by trends. *)
Lemma filter_argument_mutated_witness :
  redis trended_world !! getSubjectListCacheKey anime Trends 1 = None
  ∧ filter_ids anime = None
  ∧ ∃ r fl' w',
      fetchSubjectIDsByFilter anime Trends 1 trended_world = (Return (r, fl'), w')
      ∧ filter_ids fl' = Some [3; 1].
Proof.
  assert (Hmiss : redis trended_world !! getSubjectListCacheKey anime Trends 1 = None)
    by reflexivity.
  assert (Htrend : cached_as trended_world (getTrendingSubjectKey 2 TrendingPeriod_Month)
                     (PTrending [ {| item_id := 3; item_total := 4 |};
                                  {| item_id := 1; item_total := 2 |} ]))
    by reflexivity.
  split; [exact Hmiss|]. split; [reflexivity|].
  destruct (filter_argument_mutated anime Trends 1 trended_world _ Hmiss (λ _, Htrend))
    as (r & fl' & w' & Hrun & Hids & _).
  exists r, fl', w'. split; [exact Hrun|]. exact (Hids eq_refl eq_refl).
Defined.

(** X1 on the NSFW subject 5, first asked for without and then with NSFW
    allowed. *)
Lemma slim_subject_read_through_witness :
  redis (world_of nsfw_store ∅) !! getSubjectSlimCacheKey 5 = None
  ∧ ∃ w1, fetchSlimSubjectByID 5 false (world_of nsfw_store ∅) = (Return None, w1)
      ∧ queries (trace w1) = [SelectSubjectByID 5]
      ∧ fetchSlimSubjectByID 5 true w1
        = (Return (Some (sample_subject 5 0 true)),
           emit (RedisGet (getSubjectSlimCacheKey 5)) w1).
Proof.
  assert (Hmiss : redis (world_of nsfw_store ∅) !! getSubjectSlimCacheKey 5 = None)
    by reflexivity.
  split; [exact Hmiss|].
  destruct (slim_subject_read_through 5 false true (world_of nsfw_store ∅)
              (sample_subject 5 0 true, sample_fields 5) [] Hmiss eq_refl)
    as (w1 & Hrun & _ & Ht & Hagain).
  exists w1. split; [exact Hrun|]. split; [by rewrite Ht|exact Hagain].
Defined.

(** X2 on the banned subject 2. *)
Lemma slim_subject_absence_not_cached_witness :
  redis (world_of batch_store ∅) !! getSubjectSlimCacheKey 2 = None
  ∧ ∃ w1 w2, fetchSlimSubjectByID 2 true (world_of batch_store ∅) = (Return None, w1)
      ∧ fetchSlimSubjectByID 2 true w1 = (Return None, w2)
      ∧ redis w2 = ∅
      ∧ queries (trace w2) = [SelectSubjectByID 2; SelectSubjectByID 2].
Proof.
  assert (Hmiss : redis (world_of batch_store ∅) !! getSubjectSlimCacheKey 2 = None)
    by reflexivity.
  split; [exact Hmiss|].
  destruct (slim_subject_absence_not_cached 2 true (world_of batch_store ∅) Hmiss eq_refl)
    as (w1 & w2 & H1 & _ & H2 & Hr & Ht).
  exists w1, w2. split; [exact H1|]. split; [exact H2|]. split; [exact Hr|by rewrite Ht].
Defined.

(** X3 on the banned episode 7. *)
Lemma banned_episode_served_after_batch_witness :
  episode_ban {| episode_id := 7; episode_ban := 1 |} = 1
  ∧ ∃ w', fetchEpisodesByIDs [7] (world_of episode_store ∅)
          = (Return {[ 7 := {| episode_id := 7; episode_ban := 1 |} ]}, w')
      ∧ fetchEpisodeByID 7 w'
        = (Return (Some {| episode_id := 7; episode_ban := 1 |}),
           emit (RedisGet (getSubjectEpCacheKey 7)) w').
Proof.
  assert (Hmiss : redis (world_of episode_store ∅) !! getSubjectEpCacheKey 7 = None)
    by reflexivity.
  split; [reflexivity|].
  destruct (banned_episode_served_after_batch (world_of episode_store ∅) 7
              {| episode_id := 7; episode_ban := 1 |} eq_refl eq_refl Hmiss)
    as (_ & w' & Hbatch & Hsingle).
  exists w'. split; [exact Hbatch|exact Hsingle].
Defined.

(** X4 on the first page of the anime of the batch store. *)
Lemma subject_page_read_through_witness :
  redis (world_of batch_store ∅) !! getSubjectListCacheKey anime Collects 1 = None
  ∧ ∃ r fl' w',
      fetchSubjectIDsByFilter anime Collects 1 (world_of batch_store ∅)
      = (Return (r, fl'), w')
      ∧ fetchSubjectIDsByFilter anime Collects 1 w'
        = (Return (r, anime), emit (RedisGet (getSubjectListCacheKey anime Collects 1)) w').
Proof.
  assert (Hmiss : redis (world_of batch_store ∅) !! getSubjectListCacheKey anime Collects 1
                  = None) by reflexivity.
  split; [exact Hmiss|].
  apply (subject_page_read_through anime Collects 1 (world_of batch_store ∅) [] Hmiss);
    discriminate.
Defined.

(** X5 on a world with an empty cache. *)
Lemma trends_without_list_witness :
  fetchSubjectIDsByFilter anime Trends 1 (world_of batch_store ∅)
  = (Return (empty_page, anime),
     emit (RedisGet (getTrendingSubjectKey 2 TrendingPeriod_Month))
       (emit (RedisGet (getSubjectListCacheKey anime Trends 1)) (world_of batch_store ∅))).
Proof.
  assert (Hmiss : redis (world_of batch_store ∅) !! getSubjectListCacheKey anime Trends 1
                  = None) by reflexivity.
  assert (Hnone : redis (world_of batch_store ∅)
                    !! getTrendingSubjectKey (filter_type anime) TrendingPeriod_Month
                  = None) by reflexivity.
  exact (trends_without_list anime 1 (world_of batch_store ∅) Hmiss Hnone).
Defined.

(** X6 on the empty Store. *)
Lemma zero_count_short_circuit_witness :
  matching (conditions_of anime Collects) empty_store = []
  ∧ ∃ w', fetchSubjectIDsByFilter anime Collects 1 (world_of empty_store ∅)
          = (Return (empty_page, anime), w')
      ∧ redis w' = ∅
      ∧ trace w' = [RedisGet (getSubjectListCacheKey anime Collects 1);
                    DbSelect (CountSubjects (conditions_of anime Collects))].
Proof.
  assert (Hmiss : redis (world_of empty_store ∅) !! getSubjectListCacheKey anime Collects 1
                  = None) by reflexivity.
  split; [reflexivity|].
  destruct (zero_count_short_circuit anime Collects 1 (world_of empty_store ∅) [] Hmiss)
    as (w' & Hrun & Hr & Ht); [discriminate|reflexivity|].
  exists w'. split; [exact Hrun|]. split; [exact Hr|exact Ht].
Defined.

(** X7 on the trending list that ranks subject 3 before subject 1. *)
Lemma trends_page_follows_rank_witness :
  ∃ r fl' w' ids,
    fetchSubjectIDsByFilter anime Trends 1 trended_world = (Return (r, fl'), w')
    ∧ filter_ids fl' = Some ids
    ∧ (∀ x, x ∈ ids → x ∈ [3; 1])
    ∧ (∀ x, x ∈ paged_data r → x ∈ ids)
    ∧ StronglySorted (rank_order ids) (paged_data r).
Proof.
  assert (Hmiss : redis trended_world !! getSubjectListCacheKey anime Trends 1 = None)
    by reflexivity.
  assert (Htrend : cached_as trended_world (getTrendingSubjectKey 2 TrendingPeriod_Month)
                     (PTrending [ {| item_id := 3; item_total := 4 |};
                                  {| item_id := 1; item_total := 2 |} ]))
    by reflexivity.
  exact (trends_page_follows_rank anime 1 trended_world _ Hmiss Htrend).
Defined.

(** X8 on the ids [5,6,5] where subject 5 is cached and subject 6 is not. *)
Lemma batch_queries_exactly_missing_witness :
  missing_ids nsfw_world [5; 6; 5] = [6]
  ∧ ∃ result w' writes,
      fetchSlimSubjectsByIDs [5; 6; 5] true nsfw_world = (Return result, w')
      ∧ trace w' = RedisMGet [getSubjectSlimCacheKey 5; getSubjectSlimCacheKey 6]
                     :: DbSelect (SelectSubjectsByIDs [6]) :: writes
      ∧ result !! 5 = Some (sample_subject 5 0 true).
Proof.
  assert (Hm : missing_ids nsfw_world [5; 6; 5] = [6]) by reflexivity.
  assert (Hc : cached_as nsfw_world (getSubjectSlimCacheKey 5)
                 (PSlimSubject (sample_subject 5 0 true))) by reflexivity.
  assert (H6 : redis nsfw_world !! getSubjectSlimCacheKey 6 = None) by reflexivity.
  assert (H5 : redis nsfw_world !! getSubjectSlimCacheKey 5
               = Some (entry_of (PSlimSubject (sample_subject 5 0 true)))) by reflexivity.
  split; [exact Hm|].
  destruct (batch_queries_exactly_missing [5; 6; 5] true nsfw_world)
    as (result & w' & writes & Hrun & Ht & _ & _ & _ & Hhit).
  - discriminate.
  - intros id e Hin. rewrite !elem_of_cons, elem_of_nil in Hin.
    destruct Hin as [->|[->|[->|[]]]]; intros He.
    + rewrite H5 in He. injection He as <-. eexists. reflexivity.
    + rewrite H6 in He. discriminate He.
    + rewrite H5 in He. injection He as <-. eexists. reflexivity.
  - exists result, w', writes. split; [exact Hrun|]. split.
    + rewrite Ht, Hm. reflexivity.
    + apply (Hhit 5 _ ltac:(left) Hc).
Defined.

(** X9 on two runs in a row over the counts {10:5, 20:9, 30:1}. *)
Lemma lock_released_after_success_witness :
  ∃ w1 w2, updateTrendingSubjects 2 "month" false (world_of trending_store ∅)
           = (Return tt, w1)
    ∧ updateTrendingSubjects 2 "month" false w1 = (Return tt, w2)
    ∧ redis w2 !! lockKey_of (getSubjectTrendingKey 2 "month") = None
    ∧ queries (trace w2)
      = [SelectTrending 2 (doingDateline_of 2) (50000 - 2592000);
         SelectTrending 2 (doingDateline_of 2) (50000 - 2592000)].
Proof.
  assert (Hfree : redis (world_of trending_store ∅)
                    !! lockKey_of (getSubjectTrendingKey 2 "month") = None)
    by reflexivity.
  destruct (lock_released_after_success 2 "month" (world_of trending_store ∅) 2592000
              Hfree eq_refl) as (w1 & w2 & H1 & _ & H2 & Hl & _ & Hq).
  exists w1, w2. split; [exact H1|]. split; [exact H2|]. split; [exact Hl|exact Hq].
Defined.

(** X10 on the subject types 1 and 2. *)
Lemma trending_job_refreshes_every_type_witness :
  ∃ w', trendingSubjects [1; 2] (world_of trending_store ∅) = (Return tt, w')
    ∧ queries (trace w')
      = [SelectTrending 1 (doingDateline_of 1) (50000 - 2592000);
         SelectTrending 2 (doingDateline_of 2) (50000 - 2592000)]
    ∧ redis w' !! lockKey_of (getSubjectTrendingKey 2 TrendingPeriod_Month) = None.
Proof.
  destruct (trending_job_refreshes_every_type [1; 2] (world_of trending_store ∅) 2592000
              eq_refl (λ ty _, lookup_empty _))
    as (w' & Hrun & Hq & Hall).
  exists w'. split; [exact Hrun|]. split; [exact Hq|].
  apply (Hall 2). right. left.
Defined.

(** X11 on a read of one item past the first. *)
Lemma trending_read_bounded_witness :
  ∃ items before after,
    getTrendingSubjects 2 TrendingPeriod_Month 1 1 trended_world
    = (Return items, emit (RedisGet (getSubjectTrendingKey 2 TrendingPeriod_Month))
                       trended_world)
    ∧ [ {| item_id := 3; item_total := 4 |}; {| item_id := 1; item_total := 2 |} ]
      = before ++ items ++ after
    ∧ Z.of_nat (length items) ≤ 1.
Proof.
  assert (Htrend : cached_as trended_world (getSubjectTrendingKey 2 TrendingPeriod_Month)
                     (PTrending [ {| item_id := 3; item_total := 4 |};
                                  {| item_id := 1; item_total := 2 |} ]))
    by reflexivity.
  apply (trending_read_bounded 2 TrendingPeriod_Month 1 1 trended_world _ Htrend). lia.
Defined.

(** X21 on the NSFW subject 5, asked for in both shapes. *)
Lemma subject_shapes_cached_apart_witness :
  ∃ w1 w2,
    fetchSubjectByID 5 true (world_of nsfw_store ∅)
    = (Return (Some (sample_subject 5 0 true, sample_fields 5)), w1)
    ∧ fetchSlimSubjectByID 5 true w1 = (Return (Some (sample_subject 5 0 true)), w2)
    ∧ queries (trace w2) = [SelectSubjectByID 5; SelectSubjectByID 5].
Proof.
  assert (Hne : getSubjectItemCacheKey 5 ≠ getSubjectSlimCacheKey 5)
    by (vm_compute; discriminate).
  assert (Hitem : redis (world_of nsfw_store ∅) !! getSubjectItemCacheKey 5 = None)
    by reflexivity.
  assert (Hslim : redis (world_of nsfw_store ∅) !! getSubjectSlimCacheKey 5 = None)
    by reflexivity.
  destruct (subject_shapes_cached_apart 5 true (world_of nsfw_store ∅)
              (sample_subject 5 0 true, sample_fields 5) [] Hne Hitem Hslim eq_refl)
    as (w1 & w2 & H1 & H2 & Hq & _).
  exists w1, w2. split; [exact H1|]. split; [exact H2|exact Hq].
Defined.

(** X22 on the ids [8,9,8]. *)
Lemma topics_batch_on_miss_witness :
  ∃ result w',
    fetchSubjectTopicsByIDs [8; 9; 8] (world_of topic_store ∅) = (Return result, w')
    ∧ trace w'
      = [RedisMGet [getSubjectTopicCacheKey 8; getSubjectTopicCacheKey 9;
                    getSubjectTopicCacheKey 8];
         DbSelect (SelectTopicsByIDs [8; 9; 8]);
         RedisSet (getSubjectTopicCacheKey 8) (PTopic {| topic_id := 8 |}) (Some 86400);
         RedisSet (getSubjectTopicCacheKey 9) (PTopic {| topic_id := 9 |}) (Some 86400)]
    ∧ result !! 9 = Some {| topic_id := 9 |}.
Proof.
  destruct (topics_batch_on_miss [8; 9; 8] (world_of topic_store ∅))
    as (result & w' & Hrun & Ht & Hr).
  - discriminate.
  - intros x _. apply lookup_empty.
  - exists result, w'. split; [exact Hrun|]. split; [exact Ht|exact (Hr 9)].
Defined.

Lemma sample_topic_key_inj : Inj (=) (=) getSubjectTopicCacheKey.
Proof. intros a b H. apply (inj (String.app _)) in H. by apply (inj pretty) in H. Qed.

(** X23 on the topics 8 and 9. *)
Lemma topics_batch_read_through_witness :
  ∃ result w',
    fetchSubjectTopicsByIDs [8; 9] (world_of topic_store ∅) = (Return result, w')
    ∧ fetchSubjectTopicsByIDs [8; 9] w'
      = (Return result,
         emit (RedisMGet [getSubjectTopicCacheKey 8; getSubjectTopicCacheKey 9]) w').
Proof.
  apply (topics_batch_read_through [8; 9] (world_of topic_store ∅) sample_topic_key_inj).
  - discriminate.
  - intros x _. apply lookup_empty.
  - intros x Hx. exists {| topic_id := x |}. split; [|reflexivity].
    rewrite !elem_of_cons, elem_of_nil in Hx. destruct Hx as [->|[->|[]]].
    + left.
    + right. left.
Defined.

End Witnesses.

Section UtilityWitnesses.

Lemma sample_Number_digits (n : Z) : 0 ≤ n < 60 → sample_Number (pretty n) = Integer n.
Proof.
  apply (Z_range_all (λ n, sample_Number (pretty n) = Integer n) 0 60).
  vm_compute. reflexivity.
Qed.

Lemma sample_Number_leading_zero (n : Z) :
  0 ≤ n < 10 → sample_Number ("0" +:+ pretty n) = Integer n.
Proof.
  apply (Z_range_all (λ n, sample_Number ("0" +:+ pretty n) = Integer n) 0 10).
  vm_compute. reflexivity.
Qed.

(** X12 on one hour, one minute and one second. *)
Lemma duration_round_trip_witness :
  formatDuration 3661 = "1:01:01"
  ∧ parseDuration sample_Number (λ _, None) (formatDuration 3661) = Value (Integer 3661)
  ∧ validateDuration sample_Number (λ _, None) (Some (formatDuration 3661)) = Value tt.
Proof.
  split; [reflexivity|].
  apply (duration_round_trip sample_Number (λ _, None)
           sample_Number_digits sample_Number_leading_zero 3661). lia.
Defined.

(** X13 on four components, none of them a number. *)
Lemma too_many_components_witness :
  parseDuration sample_Number (λ _, None) "a:b:c:d" = Value NaN
  ∧ validateDuration sample_Number (λ _, None) (Some "a:b:c:d") = Throws BadRequest.
Proof.
  apply (too_many_components sample_Number (λ _, None) "a" "b" "c" "d"); reflexivity.
Defined.

(** X24 on one day, one hour, one minute and one second. *)
Lemma long_duration_left_to_package_witness :
  formatDuration 90061 = "1d1h1m1s"
  ∧ parseDuration sample_Number (λ _, Some (Integer 90061)) (formatDuration 90061)
    = Value (Integer 90061)
  ∧ parseDuration sample_Number (λ _, None) (formatDuration 90061) = Value NaN.
Proof.
  assert (Hd : 86400 ≤ 90061) by lia.
  destruct (long_duration_left_to_package sample_Number (λ _, Some (Integer 90061))
              90061 Hd) as (_ & _ & Hp).
  split; [reflexivity|]. split; [exact Hp|reflexivity].
Defined.

(** X14 on the 62 characters of [base62Chars]. *)
Lemma mask_covers_alphabet_witness :
  customAlphabet_mask 62 = 63
  ∧ (∀ i, 0 ≤ i < 62 → Z.land i (customAlphabet_mask 62) = i)
  ∧ (∀ b, 0 ≤ Z.land b (customAlphabet_mask 62) ≤ customAlphabet_mask 62).
Proof.
  assert (Hn : 1 ≤ 62 ≤ 2 ^ 30) by (vm_compute; split; discriminate).
  destruct (mask_covers_alphabet 62 Hn) as (_ & _ & _ & Hi & Hb).
  split; [reflexivity|]. split; [exact Hi|exact Hb].
Defined.

(** X15 on two buffers whose first holds a byte that selects nothing. *)
Lemma tick_takes_first_selected_witness :
  read_order [[3; 1; 0]; [2]] = [0; 1; 3; 2]
  ∧ tick "abc" 3 [[3; 1; 0]; [2]] "" 3 = Done "abc".
Proof.
  split; [reflexivity|].
  assert (Hlt : Z.of_nat (String.length "") < 3) by reflexivity.
  destruct (tick_takes_first_selected "abc" 3 [[3; 1; 0]; [2]] "" 3 Hlt) as [Hdone _].
  apply Hdone. vm_compute. discriminate.
Defined.

(** X16 on a request for no character at all. *)
Lemma tick_past_size_witness :
  tick "abc" 3 [[0; 3]] "" 0 = Done ""
  ∧ tick "abc" 3 [[0; 3]] "x" 0 = Again "xa".
Proof.
  assert (H0 : 0 ≤ Z.of_nat (String.length "")) by reflexivity.
  destruct (tick_past_size "abc" 3 [[0; 3]] "" 0 H0) as [_ Hat].
  split; [exact (Hat 3 [0] eq_refl eq_refl)|reflexivity].
Defined.

End UtilityWitnesses.

Section RouteWitnesses.

(** X17 on a PATCH of the infobox of the sample subject. *)
Lemma patch_is_put_of_merged_witness :
  changes sample_wiki (infobox_only "new")
  ∧ patchSubjectInfo sample_wiki_only (λ _, Replied tt) wiki_editor "typo"
      (infobox_only "new") 354667
    = putSubjectInfo sample_wiki_only (λ _, Replied tt) wiki_editor "typo"
        (merged sample_wiki (infobox_only "new")) 354667
  ∧ edits (patchSubjectInfo sample_wiki_only (λ _, Replied tt) wiki_editor "typo"
             (infobox_only "new") 354667).1
    = [{| args_subjectID := 354667; args_name := "sample"; args_infobox := "new";
          args_platform := 0; args_date := None; args_summary := "";
          args_userID := 1; args_commitMessage := "typo" |}].
Proof.
  assert (Hc : changes sample_wiki (infobox_only "new")).
  { right. left. vm_compute. discriminate. }
  split; [exact Hc|]. split; [|reflexivity].
  apply (patch_is_put_of_merged sample_wiki_only (λ _, Replied tt) wiki_editor "typo"
           (infobox_only "new") 354667 sample_wiki); [reflexivity|discriminate|exact Hc].
Defined.

(** X18 on a PATCH of the infobox the sample subject already has. *)
Lemma patch_without_change_witness :
  patchSubjectInfo sample_wiki_only (λ _, Replied tt) wiki_editor "typo"
    (infobox_only "{{Infobox}}") 354667
  = ([FetchSubject 354667], Replied tt)
  ∧ edits (putSubjectInfo sample_wiki_only (λ _, Replied tt) wiki_editor "typo"
             (merged sample_wiki (infobox_only "{{Infobox}}")) 354667).1
    = [{| args_subjectID := 354667; args_name := "sample"; args_infobox := "{{Infobox}}";
          args_platform := 0; args_date := None; args_summary := "";
          args_userID := 1; args_commitMessage := "typo" |}].
Proof.
  apply (patch_without_change sample_wiki_only (λ _, Replied tt) wiki_editor "typo"
           (infobox_only "{{Infobox}}") 354667 sample_wiki); [reflexivity..|].
  intros [H|[H|[H|[H|H]]]]; by apply H.
Defined.

(** X19 on the calls of a PATCH of the sample subject. *)
Lemma edit_only_when_allowed_witness :
  let args := {| args_subjectID := 354667; args_name := "sample"; args_infobox := "new";
                 args_platform := 0; args_date := None; args_summary := "";
                 args_userID := 1; args_commitMessage := "typo" |} in
  (patchSubjectInfo sample_wiki_only (λ _, Replied tt) wiki_editor "typo"
     (infobox_only "new") 354667).1
  = [FetchSubject 354667; EditSubject args]
  ∧ permission_subject_edit wiki_editor = true
  ∧ ∃ s, sample_wiki_only 354667 = Some s ∧ wiki_locked s = false.
Proof.
  intros args. split; [reflexivity|].
  destruct (edit_only_when_allowed sample_wiki_only (λ _, Replied tt) wiki_editor "typo"
              (merged sample_wiki (infobox_only "new")) (infobox_only "new") 354667
              [FetchSubject 354667; EditSubject args] args)
    as (Hperm & Hs & _).
  - right. reflexivity.
  - right. left.
  - split; [exact Hperm|exact Hs].
Defined.

(** X20 on subject 1, which the sample lookup does not know. *)
Lemma missing_subject_replies_witness :
  subjectInfo sample_wiki_only (λ _, []) 1 = ([FetchSubject 1], Raised (NotFoundError 1))
  ∧ putSubjectInfo sample_wiki_only (λ _, Replied tt) wiki_editor "typo"
      (merged sample_wiki (infobox_only "new")) 1
    = ([FetchSubject 1], Raised (NotFoundError 1))
  ∧ patchSubjectInfo sample_wiki_only (λ _, Replied tt) wiki_editor "typo"
      (infobox_only "new") 1
    = ([FetchSubject 1], Raised (BadRequestError 1)).
Proof.
  apply (missing_subject_replies sample_wiki_only (λ _, Replied tt) (λ _, []) wiki_editor
           "typo" (merged sample_wiki (infobox_only "new")) (infobox_only "new") 1);
    reflexivity.
Defined.

End RouteWitnesses.
